(** * scripts/db/validate.js: the dataset validator

    A shallow embedding of [scripts/db/validate.js] and the properties of
    its two phases (load-and-index, then validate).

    Conventions of the embedding:
    - a JavaScript string is a [string] whose characters are code units
      in the range U+0000..U+00FF;
    - a row produced by the CSV parser is an object, modelled as a finite
      map from column names to values ([gmap string Value]);
    - [db] and [files] are objects used as maps from a table name to an
      index or an array; they are modelled as [gmap]s over the names put
      there by the program, names of tables being ordinary names as
      those of the known files are;
    - an index of [db] is the plain object that [_.keyBy] makes: reading
      it at a key finds the row stored under the key, or else a property
      that plain objects inherit from [Object.prototype];
    - the row objects are shared between [files] and [db]: [files] holds
      the array of the row objects of a table and an index of [db] maps
      a key to the position of the row object in that array, so a write
      to a row is seen through both;
    - [process.exit(1)] and an uncaught [TypeError] end a computation
      early; they are the two abnormal results of the monad [M]. *)

From Stdlib Require Import Ascii String List Bool Arith Lia.
From stdpp Require Import base option list gmap strings pretty.

Local Open Scope list_scope.
Local Open Scope stdpp_scope.

(** ** JavaScript strings *)

Module JS.

(** The double-quote character and a string made of it. *)
Definition dquote : ascii := "034"%char.
Definition dq : string := String dquote EmptyString.

Definition CR : ascii := "013"%char.
Definition LF : ascii := "010"%char.
Definition CRLF : string := String CR (String LF EmptyString).

(** The class [\s] of regular expressions, on code units below 256:
    TAB, LF, VT, FF, CR, space and the no-break space U+00A0. *)
Definition is_space (c : ascii) : bool :=
  match c with
  | "009" | "010" | "011" | "012" | "013" | " " | "160" => true
  | _ => false
  end%char.

(** [/\s+$/.test(s)]: without the [m] flag [$] is the end of the
    input, so the test holds when the last code unit is in [\s]. *)
Fixpoint ends_with_space (s : string) : bool :=
  match s with
  | EmptyString => false
  | String c EmptyString => is_space c
  | String _ s' => ends_with_space s'
  end.

(** [String.prototype.toLowerCase] on code units below 256: A..Z and
    the Latin-1 capitals U+00C0..U+00DE (but the sign U+00D7) move
    up by 32. *)
Definition lower_char (c : ascii) : ascii :=
  let n := nat_of_ascii c in
  if ((65 <=? n) && (n <=? 90)) ||
     ((192 <=? n) && (n <=? 222) && negb (n =? 215))
  then ascii_of_nat (n + 32) else c.

Fixpoint toLowerCase (s : string) : string :=
  match s with
  | EmptyString => EmptyString
  | String c s' => String (lower_char c) (toLowerCase s')
  end.

(** [s.endsWith(suffix)]. *)
Definition endsWith (s suffix : string) : bool :=
  let n := String.length s in
  let k := String.length suffix in
  (k <=? n) && String.eqb (substring (n - k) k s) suffix.

(** Appending one code unit at the end. *)
Definition snoc (s : string) (c : ascii) : string :=
  s +:+ String c EmptyString.

(** [s.split(c)] for a separator of one code unit: [cur] is the piece
    being read. *)
Fixpoint split_char_go (sep : ascii) (s cur : string) : list string :=
  match s with
  | EmptyString => [cur]
  | String c s' =>
      if Ascii.eqb c sep then cur :: split_char_go sep s' EmptyString
      else split_char_go sep s' (snoc cur c)
  end.

Definition split_char (sep : ascii) (s : string) : list string :=
  split_char_go sep s EmptyString.

(** [s.split('\r\n')]. *)
Fixpoint split_crlf_go (s cur : string) : list string :=
  match s with
  | EmptyString => [cur]
  | String c s' =>
      match s' with
      | String c' s'' =>
          if Ascii.eqb c CR && Ascii.eqb c' LF
          then cur :: split_crlf_go s'' EmptyString
          else split_crlf_go s' (snoc cur c)
      | EmptyString => split_crlf_go s' (snoc cur c)
      end
  end.

Definition split_crlf (s : string) : list string :=
  split_crlf_go s EmptyString.

(** Number of double quotes of a string. *)
Fixpoint count_quotes (s : string) : nat :=
  match s with
  | EmptyString => 0
  | String c s' =>
      (if Ascii.eqb c dquote then 1 else 0) + count_quotes s'
  end.

(** [line.split(re)] for the regular expression of the column check,
    a comma with the lookahead [(?=(?:(?:[^Q]*Q){2})*[^Q]*$)] where
    [Q] stands for the double quote: the expression matches a comma
    when what follows it up to the end of the line can be cut into
    pairs of quotes, that is, holds an even number of double quotes;
    nothing is captured, so the pieces are the text between the
    matched commas. *)
Fixpoint split_unquoted_go (s cur : string) : list string :=
  match s with
  | EmptyString => [cur]
  | String c s' =>
      if Ascii.eqb c ","%char && Nat.even (count_quotes s')
      then cur :: split_unquoted_go s' EmptyString
      else split_unquoted_go s' (snoc cur c)
  end.

Definition split_unquoted (line : string) : list string :=
  split_unquoted_go line EmptyString.

(** [Array.prototype.join(',')] on an array of strings. *)
Fixpoint join_comma (l : list string) : string :=
  match l with
  | [] => EmptyString
  | [s] => s
  | s :: l' => s +:+ "," +:+ join_comma l'
  end.

End JS.

(** ** Values, rows and validation errors *)

(** What a field of a parsed row can hold: the CSV parser yields
    strings, lists of strings, [null] for an empty nullable column and
    booleans; a column that the file does not have reads as
    [undefined]. *)
Inductive Value :=
| VUndefined
| VNull
| VBool (b : bool)
| VStr (s : string)
| VList (l : list string).

Abbreviation Row := (gmap string Value).

(** [row.name] *)
Definition field (row : Row) (name : string) : Value :=
  default VUndefined (row !! name).

(** The truth value of a value in a condition. *)
Definition truthy (v : Value) : bool :=
  match v with
  | VUndefined | VNull => false
  | VBool b => b
  | VStr EmptyString => false
  | VStr _ => true
  | VList _ => true
  end.

(** The string a value becomes as a property key or in a template. *)
Definition toString (v : Value) : string :=
  match v with
  | VUndefined => "undefined"
  | VNull => "null"
  | VBool true => "true"
  | VBool false => "false"
  | VStr s => s
  | VList l => JS.join_comma l
  end.

(** [a === b] on field values; two arrays are two objects. *)
Definition strict_eq (a b : Value) : bool :=
  match a, b with
  | VUndefined, VUndefined => true
  | VNull, VNull => true
  | VBool x, VBool y => Bool.eqb x y
  | VStr x, VStr y => String.eqb x y
  | _, _ => false
  end.

Record ValidationError := { line : nat; message : string }.

(** A text between double quotes, as the templates of the messages
    have it. *)
Definition quoted (s : string) : string := JS.dq +:+ s +:+ JS.dq.

(** [db]: table name to index; an index maps a key to the position of
    its row object in the array of [files]. *)
Abbreviation Index := (gmap string nat).
Abbreviation Db := (gmap string (gmap string nat)).

(** The names of the properties that a plain object inherits from
    [Object.prototype]. Each of them holds a function or an object, so
    it reads as true in a condition. *)
Definition inherited : list string :=
  [ "constructor"; "hasOwnProperty"; "isPrototypeOf";
    "propertyIsEnumerable"; "toLocaleString"; "toString"; "valueOf";
    "__defineGetter__"; "__defineSetter__"; "__lookupGetter__";
    "__lookupSetter__"; "__proto__" ].

(** [index[key]] as a condition: true for a key of the index (its row is
    an object) and for the name of an inherited property. *)
Definition has_property (index : Index) (key : string) : bool :=
  bool_decide (is_Some (index !! key)) || bool_decide (key ∈ inherited).

(** [!db.table[key]]; [None] is the TypeError of reading a property of
    [undefined], when [db] has no such table. *)
Definition missing (db : Db) (table : string) (key : Value)
  : option bool :=
  match db !! table with
  | Some index => Some (negb (has_property index (toString key)))
  | None => None
  end.

(** ** Loops *)

(** [for (const [i, x] of xs.entries()) body] and
    [xs.forEach((x, i) => body)], from position [i] on; the body
    updates the local state [s] or throws. *)
Fixpoint forEntries {A St : Type} (body : nat → A → St → option St)
    (i : nat) (xs : list A) (s : St) : option St :=
  match xs with
  | [] => Some s
  | x :: xs' =>
      match body i x s with
      | Some s' => forEntries body (S i) xs' s'
      | None => None
      end
  end.

Definition forEach {A St : Type} (body : A → St → option St)
    (xs : list A) (s : St) : option St :=
  forEntries (fun _ => body) 0 xs s.

(** [v.forEach(x => body)] on a field: only an array has [forEach]. *)
Definition forEachOf {St : Type} (v : Value)
    (body : string → St → option St) (s : St) : option St :=
  match v with
  | VList l => forEach body l s
  | _ => None
  end.

(** [errors.push(e)] *)
Definition push (errors : list ValidationError) (e : ValidationError)
  : list ValidationError := errors ++ [e].

(** ** The Joi rule used by the duplicate detector *)

Module Joi.

(** The rule [array().unique(comparator)]: the elements are visited
    from the left; each one is compared, by [comparator(earlier,
    current)], with the elements recorded before it; at the first
    element that matches an earlier one the rule returns its error
    (position and value of that element) and visits no more; an
    element without a match is recorded. *)
Fixpoint unique_go {A : Type} (comparator : A → A → bool)
    (seen : list A) (i : nat) (value : list A) : option (nat * A) :=
  match value with
  | [] => None
  | item :: rest =>
      if existsb (fun earlier => comparator earlier item) seen
      then Some (i, item)
      else unique_go comparator (seen ++ [item]) (S i) rest
  end.

(** [error.details] of
    [array().unique(comparator).validate(value, {abortEarly: false})],
    each detail as its [context.pos] and [context.value]: the schema
    has this one rule, and the rule gives one error at most. *)
Definition unique_details {A : Type} (comparator : A → A → bool)
    (value : list A) : list (nat * A) :=
  match unique_go comparator [] 0 value with
  | Some d => [d]
  | None => []
  end.

End Joi.

(** ** The validators *)

(** The [rows.map] of [findDuplicatesById]: each row object gets its
    [id] lower-cased in place; the rows are the objects of [files], so
    the result is the new content of the store. A row whose [id] is not
    a string has no [toLowerCase]: the map stops there with a
    TypeError ([false]), the rows before it already written. *)
Fixpoint lowerIds (rows : list Row) : list Row * bool :=
  match rows with
  | [] => ([], true)
  | row :: rest =>
      match field row "id" with
      | VStr id =>
          let '(rest', ok) := lowerIds rest in
          (<["id" := VStr (JS.toLowerCase id)]> row :: rest', ok)
      | _ => (row :: rest, false)
      end
  end.

(** [findDuplicatesById(rows)]: the rows as it leaves them, and the
    errors it returns ([None] when it throws). *)
Definition findDuplicatesById (rows : list Row)
  : list Row * option (list ValidationError) :=
  let '(rows', ok) := lowerIds rows in
  if ok then
    let details :=
      Joi.unique_details
        (fun a b => strict_eq (field a "id") (field b "id")) rows' in
    (rows', Some (map (fun detail =>
       {| line := fst detail + 2;
          message := "entry with the id " +:+
                     quoted (toString (field (snd detail) "id")) +:+
                     " already exists" |}) details))
  else (rows', None).

Definition validateChannelCategories (db : Db) (row : Row) (i : nat)
  : option (list ValidationError) :=
  forEachOf (field row "categories") (fun category errors =>
    match missing db "categories" (VStr category) with
    | Some true =>
        Some (push errors
          {| line := i + 2;
             message := quoted (toString (field row "id")) +:+
                        " has the wrong category " +:+ quoted category |})
    | Some false => Some errors
    | None => None
    end) [].

Definition validateChannelCountry (db : Db) (row : Row) (i : nat)
  : option (list ValidationError) :=
  match missing db "countries" (field row "country") with
  | Some true =>
      Some [ {| line := i + 2;
                message := quoted (toString (field row "id")) +:+
                           " has the wrong country " +:+
                           quoted (toString (field row "country")) |} ]
  | Some false => Some []
  | None => None
  end.

Definition validateChannelReplacedBy (db : Db) (row : Row) (i : nat)
  : option (list ValidationError) :=
  if truthy (field row "replaced_by") then
    match missing db "channels" (field row "replaced_by") with
    | Some true =>
        Some [ {| line := i + 2;
                  message := quoted (toString (field row "id")) +:+
                             " has the wrong replaced_by " +:+
                             quoted (toString (field row "replaced_by")) |} ]
    | Some false => Some []
    | None => None
    end
  else Some [].

Definition validateChannelSubdivision (db : Db) (row : Row) (i : nat)
  : option (list ValidationError) :=
  if truthy (field row "subdivision") then
    match missing db "subdivisions" (field row "subdivision") with
    | Some true =>
        Some [ {| line := i + 2;
                  message := quoted (toString (field row "id")) +:+
                             " has the wrong subdivision " +:+
                             quoted (toString (field row "subdivision")) |} ]
    | Some false => Some []
    | None => None
    end
  else Some [].

(** [const [type, code] = area.split('/')]: the first piece, and the
    second one or [undefined]. *)
Definition area_type (area : string) : string :=
  nth 0 (JS.split_char "/" area) EmptyString.

Definition area_code (area : string) : Value :=
  match JS.split_char "/" area with
  | _ :: code :: _ => VStr code
  | _ => VUndefined
  end.

(** [type === t && !db.table[code]] *)
Definition type_and_missing (db : Db) (type t table : string)
    (code : Value) : option bool :=
  if String.eqb type t then missing db table code else Some false.

(** The condition of [validateChannelBroadcastArea], with the
    evaluation order of [||]. *)
Definition wrong_area (db : Db) (type : string) (code : Value)
  : option bool :=
  match type_and_missing db type "r" "regions" code with
  | Some true => Some true
  | Some false =>
      match type_and_missing db type "c" "countries" code with
      | Some true => Some true
      | Some false => type_and_missing db type "s" "subdivisions" code
      | None => None
      end
  | None => None
  end.

Definition validateChannelBroadcastArea (db : Db) (row : Row) (i : nat)
  : option (list ValidationError) :=
  forEachOf (field row "broadcast_area") (fun area errors =>
    match wrong_area db (area_type area) (area_code area) with
    | Some true =>
        Some (push errors
          {| line := i + 2;
             message := quoted (toString (field row "id")) +:+
                        " has the wrong broadcast_area " +:+ quoted area |})
    | Some false => Some errors
    | None => None
    end) [].

Definition validateChannelLanguages (db : Db) (row : Row) (i : nat)
  : option (list ValidationError) :=
  forEachOf (field row "languages") (fun language errors =>
    match missing db "languages" (VStr language) with
    | Some true =>
        Some (push errors
          {| line := i + 2;
             message := quoted (toString (field row "id")) +:+
                        " has the wrong language " +:+ quoted language |})
    | Some false => Some errors
    | None => None
    end) [].

Definition validateChannelId (db : Db) (row : Row) (i : nat)
  : option (list ValidationError) :=
  match missing db "channels" (field row "channel") with
  | Some true =>
      Some [ {| line := i + 2;
                message := quoted (toString (field row "channel")) +:+
                           " is missing in the channels.csv" |} ]
  | Some false => Some []
  | None => None
  end.

Definition validateCountryLanguage (db : Db) (row : Row) (i : nat)
  : option (list ValidationError) :=
  match missing db "languages" (field row "lang") with
  | Some true =>
      Some [ {| line := i + 2;
                message := quoted (toString (field row "code")) +:+
                           " has the wrong language " +:+
                           quoted (toString (field row "lang")) |} ]
  | Some false => Some []
  | None => None
  end.

Definition validateSubdivisionCountry (db : Db) (row : Row) (i : nat)
  : option (list ValidationError) :=
  match missing db "countries" (field row "country") with
  | Some true =>
      Some [ {| line := i + 2;
                message := quoted (toString (field row "code")) +:+
                           " has the wrong country " +:+
                           quoted (toString (field row "country")) |} ]
  | Some false => Some []
  | None => None
  end.

Definition validateRegionCountries (db : Db) (row : Row) (i : nat)
  : option (list ValidationError) :=
  forEachOf (field row "countries") (fun country errors =>
    match missing db "countries" (VStr country) with
    | Some true =>
        Some (push errors
          {| line := i + 2;
             message := quoted (toString (field row "code")) +:+
                        " has the wrong country " +:+ quoted country |})
    | Some false => Some errors
    | None => None
    end) [].

(** ** The services the script imports *)

(** [file], [csv] (from [../core]) and [schemes] are not part of this
    file; the script is embedded over them. *)
Record Core := {
  (** [file.eol(filepath)]: the name of the line ending of the file *)
  file_eol : string → string;
  (** [file.read(filepath)]: the text of the file *)
  file_read : string → string;
  (** [file.getFilename(filepath)]: the table name of a path *)
  file_getFilename : string → string;
  (** [csv.fromString(text)]: the rows, or the message of the error the
      promise is rejected with *)
  csv_fromString : string → string + list Row;
  (** whether [schemes[filename]] is there *)
  schemes_has : string → bool;
  (** the messages of [error.details] of
      [Joi.object(schemes[filename]).validate(row, {abortEarly: false})],
      none when the row is valid; validation does not write to the row *)
  schema_messages : string → Row → list string
}.

(** ** State and control *)

(** What the run prints: the message of [handleError], the underlined
    path of a file with errors, and one line per error (its position
    and message). Colours and padding are left to the logger. *)
Inductive LogEntry :=
| LogError (msg : string)
| LogFile (filepath : string)
| LogLine (position : nat) (msg : string).

(** The globals [db] and [files], and the output so far. *)
Record State := mkState {
  st_db : Db;
  st_files : gmap string (list Row);
  st_log : list LogEntry
}.

Definition initial : State :=
  {| st_db := ∅; st_files := ∅; st_log := [] |}.

(** How a computation can end early: [process.exit(code)], or an
    exception nobody catches. *)
Inductive Halt :=
| ProcessExit (code : nat)
| Uncaught.

Definition M (A : Type) : Type := State → (Halt + A) * State.

#[export] Instance M_ret : MRet M := λ A a st, (inr a, st).

#[export] Instance M_bind : MBind M := λ A B f m st,
  match m st with
  | (inr a, st') => f a st'
  | (inl h, st') => (inl h, st')
  end.

Definition get_state : M State := λ st, (inr st, st).

Definition throw {A : Type} : M A := λ st, (inl Uncaught, st).

Definition lift {A : Type} (o : option A) : M A :=
  match o with
  | Some a => mret a
  | None => throw
  end.

Definition logger (e : LogEntry) : M unit :=
  λ st, (inr tt, {| st_db := st_db st; st_files := st_files st;
                    st_log := st_log st ++ [e] |}).

(** [handleError(message)]: print, then [process.exit(1)]. *)
Definition handleError {A : Type} (msg : string) : M A :=
  λ st, (inl (ProcessExit 1),
         {| st_db := st_db st; st_files := st_files st;
            st_log := st_log st ++ [LogError msg] |}).

(** [for (const x of xs) body], the body updating a local [b]. *)
Fixpoint forOf {A B : Type} (body : A → B → M B) (xs : list A) (b : B)
  : M B :=
  match xs with
  | [] => mret b
  | x :: xs' => b' ← body x b; forOf body xs' b'
  end.

(** ** Phase 1: load and index *)

Definition allFiles : list string :=
  [ "data/blocklist.csv"; "data/categories.csv"; "data/channels.csv";
    "data/countries.csv"; "data/languages.csv"; "data/regions.csv";
    "data/subdivisions.csv" ].

(** [line.split(re).length] of the column check. *)
Definition columns (ln : string) : nat := length (JS.split_unquoted ln).

(** The loop over [rows.entries()] of the column check: the position of
    the first line whose number of columns is not [n], from position
    [i] on. *)
Fixpoint wrong_columns (n i : nat) (rows : list string) : option nat :=
  match rows with
  | [] => None
  | ln :: rest =>
      if negb (columns ln =? n) then Some i
      else wrong_columns n (S i) rest
  end.

(** [_.keyBy(data, key)]: every row is stored under the string of its
    [key] field, a later row replacing an earlier one. *)
Fixpoint keyBy_go (key : string) (i : nat) (data : list Row)
    (grouped : Index) : Index :=
  match data with
  | [] => grouped
  | row :: rest =>
      keyBy_go key (S i) rest (<[toString (field row key) := i]> grouped)
  end.

Definition keyBy (data : list Row) (key : string) : Index :=
  keyBy_go key 0 data ∅.

(** The [switch (filename)] that picks the key field. *)
Definition key_field (filename : string) : string :=
  if String.eqb filename "blocklist" then "channel"
  else if String.eqb filename "categories" || String.eqb filename "channels"
  then "id"
  else "code".

(** The texts of the fatal errors. *)
Definition msg_eol (filepath : string) : string :=
  "Error: file must have line endings with CRLF (" +:+ filepath +:+ ")".

Definition msg_empty_lines (filepath : string) : string :=
  "Error: empty lines at the end of file not allowed (" +:+ filepath +:+ ")".

Definition msg_columns (i : nat) (filepath : string) : string :=
  "Error: row " +:+ pretty (i + 1) +:+
  " has the wrong number of columns (" +:+ filepath +:+ ")".

Definition msg_parse (err filepath : string) : string :=
  err +:+ " (" +:+ filepath +:+ ")".

(** The body of the first loop of [main]. *)
Definition loadFile (c : Core) (filepath : string) (_ : unit) : M unit :=
  if negb (JS.endsWith filepath ".csv") then mret tt else
  let eol := file_eol c filepath in
  if negb (String.eqb eol "CRLF") then handleError (msg_eol filepath) else
  let csvString := file_read c filepath in
  if JS.ends_with_space csvString
  then handleError (msg_empty_lines filepath) else
  let rows := JS.split_crlf csvString in
  let headers := JS.split_char ","%char (nth 0 rows EmptyString) in
  match wrong_columns (length headers) 0 rows with
  | Some i => handleError (msg_columns i filepath)
  | None =>
      let filename := file_getFilename c filepath in
      match csv_fromString c csvString with
      | inl err => handleError (msg_parse err filepath)
      | inr data =>
          let grouped := keyBy data (key_field filename) in
          λ st, (inr tt,
                 {| st_db := <[filename := grouped]> (st_db st);
                    st_files := <[filename := data]> (st_files st);
                    st_log := st_log st |})
      end
  end.

Definition phase1 (c : Core) : M unit := forOf (loadFile c) allFiles tt.

(** ** Phase 2: validate *)

(** [fileErrors = fileErrors.concat(v)] where [v] may throw. *)
Definition concat_to (fileErrors : list ValidationError)
    (v : option (list ValidationError)) : option (list ValidationError) :=
  errors ← v; Some (fileErrors ++ errors).

(** The body of the loop over the rows of [channels]. *)
Definition channelRules (db : Db) (i : nat) (row : Row)
    (fileErrors : list ValidationError) : option (list ValidationError) :=
  fileErrors ← concat_to fileErrors (validateChannelBroadcastArea db row i);
  fileErrors ← concat_to fileErrors (validateChannelSubdivision db row i);
  fileErrors ← concat_to fileErrors (validateChannelCategories db row i);
  fileErrors ← concat_to fileErrors (validateChannelReplacedBy db row i);
  fileErrors ← concat_to fileErrors (validateChannelLanguages db row i);
  concat_to fileErrors (validateChannelCountry db row i).

(** The body of the loop of a table with one rule. *)
Definition oneRule (rule : Db → Row → nat → option (list ValidationError))
    (db : Db) (i : nat) (row : Row) (fileErrors : list ValidationError)
  : option (list ValidationError) :=
  concat_to fileErrors (rule db row i).

(** The [if (filename === ...)] chain of the second loop: the rows of
    the table as the chain leaves them, and [fileErrors] after it
    ([None] when it throws). *)
Definition referential (db : Db) (filename : string) (rows : list Row)
  : list Row * option (list ValidationError) :=
  if String.eqb filename "channels" then
    let '(rows', dups) := findDuplicatesById rows in
    (rows', fileErrors ← concat_to [] dups;
            forEntries (channelRules db) 0 rows' fileErrors)
  else if String.eqb filename "blocklist" then
    (rows, forEntries (oneRule validateChannelId db) 0 rows [])
  else if String.eqb filename "countries" then
    (rows, forEntries (oneRule validateCountryLanguage db) 0 rows [])
  else if String.eqb filename "subdivisions" then
    (rows, forEntries (oneRule validateSubdivisionCountry db) 0 rows [])
  else if String.eqb filename "regions" then
    (rows, forEntries (oneRule validateRegionCountries db) 0 rows [])
  else (rows, Some []).

(** [rows.forEach((row, i) => ...)] of the schema: every detail of the
    error of a row is pushed with the line of the row. *)
Fixpoint schemaLoop (messages : Row → list string) (i : nat)
    (rows : list Row) (fileErrors : list ValidationError)
  : list ValidationError :=
  match rows with
  | [] => fileErrors
  | row :: rest =>
      schemaLoop messages (S i) rest
        (fold_left (fun errors detail =>
                      push errors {| line := i + 2; message := detail |})
                   (messages row) fileErrors)
  end.

Definition msg_scheme (filename : string) : string :=
  "Error: " +:+ quoted filename +:+ " scheme is missing".

Definition set_rows (filename : string) (rows : list Row) : M unit :=
  λ st, (inr tt, {| st_db := st_db st;
                    st_files := <[filename := rows]> (st_files st);
                    st_log := st_log st |}).

(** The errors of one file, as [fileErrors] holds them when the file
    has been validated. *)
Definition validateFile (c : Core) (filename : string) : M (list ValidationError) :=
  st ← get_state;
  rows ← lift (st_files st !! filename);
  let '(rows', fileErrors) := referential (st_db st) filename rows in
  _ ← set_rows filename rows';
  fileErrors ← lift fileErrors;
  mret (schemaLoop (schema_messages c filename) 0 rows' fileErrors).

(** Printing the errors of a file. *)
Fixpoint report (fileErrors : list ValidationError) : M unit :=
  match fileErrors with
  | [] => mret tt
  | err :: rest => _ ← logger (LogLine (line err) (message err)); report rest
  end.

(** The body of the second loop of [main]. *)
Definition checkFile (c : Core) (filepath : string)
    (globalErrors : list ValidationError) : M (list ValidationError) :=
  let filename := file_getFilename c filepath in
  if negb (schemes_has c filename) then handleError (msg_scheme filename)
  else
    fileErrors ← validateFile c filename;
    match fileErrors with
    | [] => mret globalErrors
    | _ =>
        _ ← logger (LogFile filepath);
        _ ← report fileErrors;
        mret (globalErrors ++ fileErrors)
    end.

Definition phase2 (c : Core) (args : list string) : M (list ValidationError) :=
  let toCheck := match args with [] => allFiles | _ => args end in
  forOf (checkFile c) toCheck [].

Definition msg_total (globalErrors : list ValidationError) : string :=
  pretty (length globalErrors) +:+ " error(s)".

Definition main (c : Core) (args : list string) : M unit :=
  _ ← phase1 c;
  globalErrors ← phase2 c args;
  match globalErrors with
  | [] => mret tt
  | _ => handleError (msg_total globalErrors)
  end.

(** The exit status of a run: 0 when [main] returns, the argument of
    [process.exit] when it is called; what the runtime does with an
    uncaught exception is not fixed by the script. *)
Definition exit_status {A : Type} (r : (Halt + A) * State) : option nat :=
  match fst r with
  | inr _ => Some 0
  | inl (ProcessExit code) => Some code
  | inl Uncaught => None
  end.

Definition run (c : Core) (args : list string) : (Halt + unit) * State :=
  main c args initial.

(** ** Definitions used by the statements *)

(** Splitting a line on the commas that are not enclosed in a pair of
    double quotes, as the specification words the column check: the
    line is read from the left, [inq] telling whether a quote is open. *)
Fixpoint split_outside_go (inq : bool) (s cur : string) : list string :=
  match s with
  | EmptyString => [cur]
  | String c s' =>
      if Ascii.eqb c JS.dquote
      then split_outside_go (negb inq) s' (JS.snoc cur c)
      else if Ascii.eqb c ","%char && negb inq
      then cur :: split_outside_go inq s' EmptyString
      else split_outside_go inq s' (JS.snoc cur c)
  end.

Definition split_outside_quotes (ln : string) : list string :=
  split_outside_go false ln EmptyString.

(** The number of commas of a line that are outside quotes. *)
Fixpoint commas_outside_go (inq : bool) (s : string) : nat :=
  match s with
  | EmptyString => 0
  | String c s' =>
      if Ascii.eqb c JS.dquote then commas_outside_go (negb inq) s'
      else if Ascii.eqb c ","%char && negb inq
      then S (commas_outside_go inq s')
      else commas_outside_go inq s'
  end.

Definition commas_outside_quotes (ln : string) : nat :=
  commas_outside_go false ln.

(** The lines of a table file and the length of [headers]. *)
Definition lines_of (c : Core) (filepath : string) : list string :=
  JS.split_crlf (file_read c filepath).

Definition header_count (c : Core) (filepath : string) : nat :=
  length (JS.split_char ","%char (nth 0 (lines_of c filepath) EmptyString)).

(** The format violations of a table file: line endings that are not
    CRLF, a text that ends in white space, a line that has not as many
    columns as [headers], a text the CSV parser rejects. *)
Definition format_violation (c : Core) (filepath : string) : Prop :=
  file_eol c filepath ≠ "CRLF"
  ∨ JS.ends_with_space (file_read c filepath) = true
  ∨ (∃ ln, ln ∈ lines_of c filepath ∧ columns ln ≠ header_count c filepath)
  ∨ (∃ err, csv_fromString c (file_read c filepath) = inl err).

(** All the reference rules of a table on one row, in the order of the
    source. *)
Definition rules_of (db : Db) (filename : string) (i : nat) (row : Row)
  : option (list ValidationError) :=
  if String.eqb filename "channels" then
    area ← validateChannelBroadcastArea db row i;
    subdivision ← validateChannelSubdivision db row i;
    categories ← validateChannelCategories db row i;
    replaced ← validateChannelReplacedBy db row i;
    languages ← validateChannelLanguages db row i;
    country ← validateChannelCountry db row i;
    Some (area ++ subdivision ++ categories ++ replaced ++ languages
          ++ country)
  else if String.eqb filename "blocklist" then validateChannelId db row i
  else if String.eqb filename "countries"
  then validateCountryLanguage db row i
  else if String.eqb filename "subdivisions"
  then validateSubdivisionCountry db row i
  else if String.eqb filename "regions" then validateRegionCountries db row i
  else Some [].

(** The schema errors of one row. *)
Definition schema_errors (c : Core) (filename : string) (i : nat) (row : Row)
  : list ValidationError :=
  map (fun detail => {| line := i + 2; message := detail |})
      (schema_messages c filename row).

(** The files of a list validated one after the other from a state:
    the errors of each file, and the state at the end. Printing the
    errors of a file changes the output only. *)
Inductive validated (c : Core)
  : list string → State → list (list ValidationError) → State → Prop :=
| validated_nil (st : State) : validated c [] st [] st
| validated_cons (filepath : string) (rest : list string)
    (st st1 st2 st3 : State) (fileErrors : list ValidationError)
    (others : list (list ValidationError)) :
    schemes_has c (file_getFilename c filepath) = true →
    validateFile c (file_getFilename c filepath) st = (inr fileErrors, st1) →
    st_db st2 = st_db st1 →
    st_files st2 = st_files st1 →
    validated c rest st2 others st3 →
    validated c (filepath :: rest) st (fileErrors :: others) st3.

(** Whether a character occurs in a string. *)
Fixpoint has_char (sep : ascii) (s : string) : bool :=
  match s with
  | EmptyString => false
  | String c s' => Ascii.eqb c sep || has_char sep s'
  end.

(** [db] holds, for every table of [files], the index of its rows
    under the key field of the table. *)
Definition db_indexes_files (st : State) : Prop :=
  ∀ filename,
    st_db st !! filename
    = (fun data => keyBy data (key_field filename)) <$> st_files st !! filename.

(** The number of occurrences of a character in a string. *)
Fixpoint count_char (sep : ascii) (s : string) : nat :=
  match s with
  | EmptyString => 0
  | String c s' => (if Ascii.eqb c sep then 1 else 0) + count_char sep s'
  end.

(** The errors that the output shows, in the order of the output. *)
Fixpoint printed (log : list LogEntry) : list ValidationError :=
  match log with
  | [] => []
  | LogLine position msg :: rest =>
      {| line := position; message := msg |} :: printed rest
  | _ :: rest => printed rest
  end.

(** The id of a row as the duplicate detector compares it. *)
Definition lowered_id (row : Row) : string :=
  JS.toLowerCase (toString (field row "id")).

(** What lower-casing ids leaves of a list of rows: their number, every
    field but [id], and an [id] that is as it was or is the string it
    was, in lower case. *)
Definition same_but_ids (rows rows' : list Row) : Prop :=
  length rows' = length rows
  ∧ ∀ i row row', rows !! i = Some row → rows' !! i = Some row' →
      (∀ name, name ≠ "id" → field row' name = field row name)
      ∧ (field row' "id" = field row "id"
         ∨ ∃ id, field row "id" = VStr id
                 ∧ field row' "id" = VStr (JS.toLowerCase id)).

(** Nothing is written to the rows of [files] but ids of the rows of
    the channels, which are lower-cased. *)
Definition only_channel_ids_written (st st' : State) : Prop :=
  (∀ filename, filename ≠ "channels" →
     st_files st' !! filename = st_files st !! filename)
  ∧ match st_files st !! "channels" with
    | Some rows =>
        ∃ rows', st_files st' !! "channels" = Some rows'
                 ∧ same_but_ids rows rows'
    | None => st_files st' !! "channels" = None
    end.

(** ** A small dataset *)

Module Demo.

(** The name of a path without directory and extension. *)
Definition basename (filepath : string) : string :=
  nth 0 (JS.split_char "."%char
           (List.last (JS.split_char "/"%char filepath) EmptyString))
      EmptyString.

Definition row (l : list (string * Value)) : Row := list_to_map l.

Definition channel (id : string) (categories : list string) : Row :=
  row [ ("id", VStr id); ("name", VStr "BBC One"); ("country", VStr "UK");
        ("subdivision", VNull); ("categories", VList categories);
        ("replaced_by", VNull); ("languages", VList ["eng"]);
        ("broadcast_area", VList ["c/UK"]) ].

Definition channels_text : string :=
  "id,name,country,subdivision,categories,replaced_by,languages,broadcast_area"
  +:+ JS.CRLF +:+ "BBCOne.uk,BBC One,UK,,kids;xxx,,eng,c/UK".
Definition channels_rows : list Row := [ channel "BBCOne.uk" ["kids"; "xxx"] ].

Definition categories_text : string :=
  "id,name" +:+ JS.CRLF +:+ "kids,Kids".
Definition categories_rows : list Row :=
  [ row [("id", VStr "kids"); ("name", VStr "Kids")] ].

Definition countries_text : string :=
  "code,name,lang" +:+ JS.CRLF +:+ "UK,United Kingdom,eng".
Definition countries_rows : list Row :=
  [ row [("code", VStr "UK"); ("name", VStr "United Kingdom");
         ("lang", VStr "eng")] ].

Definition languages_text : string :=
  "code,name" +:+ JS.CRLF +:+ "eng,English".
Definition languages_rows : list Row :=
  [ row [("code", VStr "eng"); ("name", VStr "English")] ].

Definition regions_text : string :=
  "code,name,countries" +:+ JS.CRLF +:+ "EUR,Europe,UK".
Definition regions_rows : list Row :=
  [ row [("code", VStr "EUR"); ("name", VStr "Europe");
         ("countries", VList ["UK"])] ].

Definition subdivisions_text : string :=
  "country,name,code" +:+ JS.CRLF +:+ "UK,England,GB-ENG".
Definition subdivisions_rows : list Row :=
  [ row [("country", VStr "UK"); ("name", VStr "England");
         ("code", VStr "GB-ENG")] ].

Definition blocklist_text : string :=
  "channel,ref" +:+ JS.CRLF +:+ "bbcone.uk,https://example.org".
Definition blocklist_rows : list Row :=
  [ row [("channel", VStr "bbcone.uk"); ("ref", VStr "https://example.org")] ].

Definition tables : list (string * (string * list Row)) :=
  [ ("blocklist", (blocklist_text, blocklist_rows));
    ("categories", (categories_text, categories_rows));
    ("channels", (channels_text, channels_rows));
    ("countries", (countries_text, countries_rows));
    ("languages", (languages_text, languages_rows));
    ("regions", (regions_text, regions_rows));
    ("subdivisions", (subdivisions_text, subdivisions_rows)) ].

Fixpoint assoc {A : Type} (k : string) (l : list (string * A)) : option A :=
  match l with
  | [] => None
  | (k', a) :: l' => if String.eqb k k' then Some a else assoc k l'
  end.

(** The services over the dataset: every file has CRLF line endings
    but the ones listed in [lf]; the parser knows the texts of the
    dataset; every table has a scheme, which accepts every row. *)
Definition core (lf : list string) : Core :=
  {| file_eol := fun p =>
       if existsb (String.eqb p) lf then "LF" else "CRLF";
     file_read := fun p =>
       match assoc (basename p) tables with
       | Some (text, _) => text
       | None => EmptyString
       end;
     file_getFilename := basename;
     csv_fromString := fun text =>
       match List.find (fun e => String.eqb (fst (snd e)) text) tables with
       | Some (_, (_, rows)) => inr rows
       | None => inl "parse error"
       end;
     schemes_has := fun n =>
       match assoc n tables with Some _ => true | None => false end;
     schema_messages := fun _ _ => [] |}.

(** The same services but for the text of one file. *)
Definition with_text (filepath text : string) (c : Core) : Core :=
  {| file_eol := file_eol c;
     file_read := fun p =>
       if String.eqb p filepath then text else file_read c p;
     file_getFilename := file_getFilename c;
     csv_fromString := csv_fromString c;
     schemes_has := schemes_has c;
     schema_messages := schema_messages c |}.

(** The state after the first phase. *)
Definition loaded : State := snd (phase1 (core []) initial).

(** Three rows of [channels] whose ids differ by case only. *)
Definition triple : list Row :=
  [ channel "BBCOne.uk" ["kids"]; channel "bbcone.uk" ["kids"];
    channel "BBCONE.uk" ["kids"] ].

End Demo.

(** ** Variations of the dataset *)

Module Cases.

(** The languages file with a third line of one column. *)
Definition short_line : Core :=
  Demo.with_text "data/languages.csv"
    (Demo.languages_text +:+ JS.CRLF +:+ "fra") (Demo.core []).

(** The languages file with a header whose first name holds a comma
    between quotes. *)
Definition quoted_header : Core :=
  Demo.with_text "data/languages.csv"
    (quoted "code,x" +:+ ",name" +:+ JS.CRLF +:+ "eng,English")
    (Demo.core []).

(** The services of the dataset without the scheme of the regions. *)
Definition no_regions_scheme : Core :=
  {| file_eol := file_eol (Demo.core []);
     file_read := file_read (Demo.core []);
     file_getFilename := file_getFilename (Demo.core []);
     csv_fromString := csv_fromString (Demo.core []);
     schemes_has := fun n =>
       negb (String.eqb n "regions") && schemes_has (Demo.core []) n;
     schema_messages := schema_messages (Demo.core []) |}.

(** The services of the dataset with one more scheme, for a table
    [extras] that no known file holds. *)
Definition extra_scheme : Core :=
  {| file_eol := file_eol (Demo.core []);
     file_read := file_read (Demo.core []);
     file_getFilename := file_getFilename (Demo.core []);
     csv_fromString := csv_fromString (Demo.core []);
     schemes_has := fun n =>
       String.eqb n "extras" || schemes_has (Demo.core []) n;
     schema_messages := schema_messages (Demo.core []) |}.

(** A channels row whose [id] is [null]. *)
Definition no_id : Row :=
  Demo.row [ ("id", VNull); ("name", VStr "Nameless") ].

(** A region with a known country, an unknown one listed twice, and an
    element that names an inherited property. *)
Definition region : Row :=
  Demo.row [ ("code", VStr "EUR"); ("name", VStr "Europe");
             ("countries", VList ["UK"; "ZZ"; "hasOwnProperty"; "ZZ"]) ].

(** A channel with a known language, an unknown one, and one that names
    an inherited property. *)
Definition polyglot : Row :=
  Demo.row [ ("id", VStr "One.uk");
             ("languages", VList ["eng"; "zzz"; "constructor"]) ].

(** Two channels whose ids differ by case only, both without a name:
    the first with two unknown categories, the second with an unknown
    language and an unknown country. *)
Definition two_channels : list Row :=
  [ Demo.row [ ("id", VStr "BBCOne.uk"); ("name", VStr EmptyString);
               ("country", VStr "UK"); ("subdivision", VNull);
               ("categories", VList ["xxx"; "yyy"]); ("replaced_by", VNull);
               ("languages", VList ["eng"]);
               ("broadcast_area", VList ["c/UK"]) ];
    Demo.row [ ("id", VStr "bbcone.uk"); ("name", VStr EmptyString);
               ("country", VStr "ZZ"); ("subdivision", VNull);
               ("categories", VList ["kids"]); ("replaced_by", VNull);
               ("languages", VList ["zzz"]);
               ("broadcast_area", VList ["c/UK"]) ] ].

Definition two_channels_text : string :=
  "id,name,country,subdivision,categories,replaced_by,languages,broadcast_area"
  +:+ JS.CRLF +:+ "BBCOne.uk,,UK,,xxx;yyy,,eng,c/UK"
  +:+ JS.CRLF +:+ "bbcone.uk,,ZZ,,kids,,zzz,c/UK".

(** The services of the dataset with these channels, and a scheme that
    wants a name in every row. *)
Definition rich : Core :=
  {| file_eol := file_eol (Demo.core []);
     file_read := fun p =>
       if String.eqb p "data/channels.csv" then two_channels_text
       else file_read (Demo.core []) p;
     file_getFilename := file_getFilename (Demo.core []);
     csv_fromString := fun text =>
       if String.eqb text two_channels_text then inr two_channels
       else csv_fromString (Demo.core []) text;
     schemes_has := schemes_has (Demo.core []);
     schema_messages := fun _ row =>
       if truthy (field row "name") then []
       else [quoted "name" +:+ " is not allowed to be empty"] |}.

(** The state after the first phase over these services. *)
Definition rich_loaded : State := snd (phase1 rich initial).

End Cases.

(** * Properties *)

(** ** Strings *)

Section Strings.

Lemma append_cons (a : ascii) (s t : string) :
  String a s +:+ t = String a (s +:+ t).
Proof. reflexivity. Qed.

Lemma append_empty (t : string) : EmptyString +:+ t = t.
Proof. reflexivity. Qed.

Lemma ends_with_space_app (s t : string) :
  t ≠ EmptyString →
  JS.ends_with_space (s +:+ t) = JS.ends_with_space t.
Proof.
  intros Ht. induction s as [|a s IH]; [done|].
  rewrite append_cons. cbn [JS.ends_with_space].
  destruct (s +:+ t) eqn:E; [|exact IH].
  destruct s; [rewrite append_empty in E; done | discriminate E].
Qed.

Lemma ends_with_space_snoc (s : string) (c : ascii) :
  JS.ends_with_space (JS.snoc s c) = JS.is_space c.
Proof. unfold JS.snoc. by rewrite ends_with_space_app. Qed.

Lemma ends_with_space_crlf (s : string) :
  JS.ends_with_space (s +:+ JS.CRLF) = true.
Proof. by rewrite ends_with_space_app. Qed.

Lemma dquote_not_comma (c : ascii) :
  Ascii.eqb c JS.dquote = true → Ascii.eqb c ","%char = false.
Proof. intros ->%Ascii.eqb_eq. reflexivity. Qed.

(** On a line with an even number of quotes, the quotes after a comma
    are even exactly when the quotes before it are. *)
Lemma split_unquoted_go_outside (s : string) :
  ∀ (cur : string) (inq : bool),
    Nat.even (JS.count_quotes s) = negb inq →
    JS.split_unquoted_go s cur = split_outside_go inq s cur.
Proof.
  induction s as [|c s IH]; intros cur inq Hpar; [done|].
  cbn [JS.split_unquoted_go split_outside_go JS.count_quotes] in *.
  destruct (Ascii.eqb c JS.dquote) eqn:Hq.
  - rewrite (dquote_not_comma _ Hq). cbn [andb].
    apply IH. cbn [Nat.add] in Hpar.
    rewrite Nat.even_succ, <- Nat.negb_even in Hpar.
    destruct (Nat.even (JS.count_quotes s)), inq; done.
  - cbn [Nat.add] in Hpar. rewrite Hpar.
    destruct (Ascii.eqb c ","), inq; cbn [andb negb];
      first [ f_equal; by apply IH | by apply IH ].
Qed.

Lemma split_outside_go_length (s : string) :
  ∀ (cur : string) (inq : bool),
    length (split_outside_go inq s cur) = S (commas_outside_go inq s).
Proof.
  induction s as [|c s IH]; intros cur inq; [done|].
  cbn [split_outside_go commas_outside_go].
  destruct (Ascii.eqb c JS.dquote); [apply IH|].
  destruct (Ascii.eqb c "," && negb inq); cbn [length]; by rewrite IH.
Qed.

Lemma wrong_columns_None (n : nat) (rows : list string) :
  ∀ i, wrong_columns n i rows = None ↔ Forall (λ ln, columns ln = n) rows.
Proof.
  induction rows as [|ln rows IH]; intros i; cbn [wrong_columns].
  - split; [constructor | done].
  - destruct (Nat.eqb_spec (columns ln) n) as [Heq|Hne]; cbn [negb].
    + rewrite IH. split; [by constructor | by inversion 1].
    + split; [done | inversion 1; done].
Qed.

End Strings.

(** The split of the column check: on a line whose quotes are balanced
    the pieces are those of the left-to-right reading, a comma between
    quotes adds no column (the number of columns is one more than the
    number of commas outside quotes), and the line agrees with a count
    [n] exactly when that number is [n]. *)
Theorem column_check_respects_quotes (ln : string) (n : nat) :
  Nat.even (JS.count_quotes ln) = true →
  JS.split_unquoted ln = split_outside_quotes ln
  ∧ columns ln = S (commas_outside_quotes ln)
  ∧ (∀ i, wrong_columns n i [ln] = None ↔ S (commas_outside_quotes ln) = n).
Proof.
  intros Hbal.
  assert (Hsplit : JS.split_unquoted ln = split_outside_quotes ln)
    by (by apply split_unquoted_go_outside).
  assert (Hcol : columns ln = S (commas_outside_quotes ln)).
  { unfold columns. rewrite Hsplit. apply split_outside_go_length. }
  split; [done|]. split; [done|].
  intros i. rewrite wrong_columns_None, <- Hcol.
  split; [by inversion 1 | by repeat constructor].
Qed.

(** C8 on a file whose header has a comma between quotes: the header
    and the row have two columns each when split on the commas outside
    quotes, so every line has the quote-aware count of the header; yet
    the header is counted on every comma (three pieces) and the file is
    rejected at row 1, with the exit status 1. *)
Lemma quoted_header_is_rejected :
  let c := Cases.quoted_header in
  let filepath := "data/languages.csv" in
  let header := quoted "code,x" +:+ ",name" in
  lines_of c filepath = [header; "eng,English"]
  ∧ Nat.even (JS.count_quotes header) = true
  ∧ columns header = 2
  ∧ columns "eng,English" = 2
  ∧ header_count c filepath = 3
  ∧ loadFile c filepath tt initial
    = handleError (msg_columns 0 filepath) initial
  ∧ exit_status (run c []) = Some 1.
Proof. repeat split; vm_compute; reflexivity. Qed.

(** A quoted field with a comma in a line of three columns. *)
Lemma column_check_respects_quotes_witness :
  let ln := "x," +:+ quoted "a,b" +:+ ",y" in
  JS.split_unquoted ln = split_outside_quotes ln
  ∧ columns ln = S (commas_outside_quotes ln)
  ∧ (∀ i, wrong_columns 3 i [ln] = None ↔ S (commas_outside_quotes ln) = 3).
Proof.
  apply (column_check_respects_quotes ("x," +:+ quoted "a,b" +:+ ",y") 3).
  reflexivity.
Defined.

(** ** The monad *)

Section Monad.

Lemma bind_inr {A B : Type} (m : M A) (f : A → M B) (st st' : State)
    (a : A) :
  m st = (inr a, st') → (m ≫= f) st = f a st'.
Proof. intros H. unfold mbind, M_bind. by rewrite H. Qed.

Lemma bind_inl {A B : Type} (m : M A) (f : A → M B) (st st' : State)
    (h : Halt) :
  m st = (inl h, st') → (m ≫= f) st = (inl h, st').
Proof. intros H. unfold mbind, M_bind. by rewrite H. Qed.

Lemma bind_inv_inr {A B : Type} (m : M A) (f : A → M B) (st st'' : State)
    (b : B) :
  (m ≫= f) st = (inr b, st'') →
  ∃ a st', m st = (inr a, st') ∧ f a st' = (inr b, st'').
Proof.
  unfold mbind, M_bind. destruct (m st) as [[h|a] st']; [done|]. eauto.
Qed.

End Monad.

(** ** Phase 1 *)

Section Phase1.

Context (c : Core).

(** A file either stops the run with one message, or is stored. *)
Lemma loadFile_cases (filepath : string) (st : State) :
  (∃ msg, loadFile c filepath tt st = handleError msg st)
  ∨ (∃ st', loadFile c filepath tt st = (inr tt, st')
            ∧ st_log st' = st_log st).
Proof.
  unfold loadFile.
  repeat first
    [ progress case_match
    | by left; eexists
    | by right; eexists ].
Qed.

Lemma allFiles_csv (filepath : string) :
  filepath ∈ allFiles → JS.endsWith filepath ".csv" = true.
Proof.
  unfold allFiles. intros H.
  repeat (apply elem_of_cons in H as [->|H]; [reflexivity|]).
  by apply not_elem_of_nil in H.
Qed.

(** A file with a format violation stops the run where it is read. *)
Lemma loadFile_violation (filepath : string) (st : State) :
  JS.endsWith filepath ".csv" = true →
  format_violation c filepath →
  ∃ msg, loadFile c filepath tt st = handleError msg st.
Proof.
  intros Hcsv Hv. unfold loadFile. rewrite Hcsv. cbn [negb].
  destruct (String.eqb_spec (file_eol c filepath) "CRLF") as [Heol|Heol];
    cbn [negb]; [|by eexists].
  destruct (JS.ends_with_space (file_read c filepath)) eqn:Hsp;
    [by eexists|].
  destruct (wrong_columns _ 0 _) as [i|] eqn:Hcols; [by eexists|].
  destruct (csv_fromString c (file_read c filepath)) as [err|data] eqn:Hp;
    [by eexists|].
  exfalso. destruct Hv as [Hv|[Hv|[(ln & Hin & Hne)|[err Herr]]]].
  - done.
  - congruence.
  - apply wrong_columns_None in Hcols.
    rewrite Forall_forall in Hcols. by apply Hne, Hcols.
  - congruence.
Qed.

Lemma forOf_loadFile_fatal (fs : list string) (filepath : string) :
  filepath ∈ fs →
  (∀ st, ∃ msg, loadFile c filepath tt st = handleError msg st) →
  ∀ st, ∃ msg st',
    forOf (loadFile c) fs tt st = (inl (ProcessExit 1), st')
    ∧ st_log st' = st_log st ++ [LogError msg].
Proof.
  intros Hin Hbad. induction fs as [|f fs IH]; intros st.
  { by apply not_elem_of_nil in Hin. }
  cbn [forOf].
  destruct (loadFile_cases f st) as [[msg Hf]|(st' & Hf & Hlog)].
  - exists msg. eexists. split; [by apply bind_inl|done].
  - apply elem_of_cons in Hin as [->|Hin].
    + destruct (Hbad st) as [msg Hmsg]. rewrite Hmsg in Hf. done.
    + destruct (IH Hin st') as (msg & st'' & Hrun & Hlog').
      exists msg, st''. split.
      * destruct (loadFile c f tt st) as [[h|[]] s] eqn:E; [done|].
        injection Hf as ->. by rewrite (bind_inr _ _ _ _ _ E).
      * by rewrite Hlog', Hlog.
Qed.

(** A file of [allFiles] that cannot be loaded ends the run in the
    first phase: status 1 and nothing printed but one message. *)
Lemma run_fatal (args : list string) (filepath : string) :
  filepath ∈ allFiles →
  (∀ st, ∃ msg, loadFile c filepath tt st = handleError msg st) →
  ∃ msg st, run c args = (inl (ProcessExit 1), st)
            ∧ st_log st = [LogError msg]
            ∧ phase1 c initial = (inl (ProcessExit 1), st).
Proof.
  intros Hin Hbad.
  destruct (forOf_loadFile_fatal allFiles filepath Hin Hbad initial)
    as (msg & st & Hrun & Hlog).
  exists msg, st. split; [|split; [done|exact Hrun]].
  unfold run, main. by apply bind_inl.
Qed.

End Phase1.

(** C5. A format violation in any of the known table files (line
    endings that are not CRLF, a text that ends in white space, a line
    with a number of columns that is not the header's, a text the CSV
    parser rejects) ends the run in the first phase with exit status 1,
    whatever files were asked for: the second phase is not entered, and
    the run prints its one fatal message and no error of a file. *)
Theorem format_violation_aborts (c : Core) (args : list string)
    (filepath : string) :
  filepath ∈ allFiles →
  format_violation c filepath →
  exit_status (run c args) = Some 1
  ∧ fst (phase1 c initial) = inl (ProcessExit 1)
  ∧ run c args = (inl (ProcessExit 1), snd (phase1 c initial))
  ∧ ∃ msg, st_log (snd (run c args)) = [LogError msg].
Proof.
  intros Hin Hv.
  destruct (run_fatal c args filepath Hin) as (msg & st & Hrun & Hlog & Hp1).
  { intros st. apply loadFile_violation; [by apply allFiles_csv|done]. }
  rewrite Hrun, Hp1. cbn [fst snd]. repeat split; eauto.
Qed.

(** The channels file has LF line endings and only the blocklist is to
    be validated. *)
Lemma format_violation_aborts_witness :
  let c := Demo.core ["data/channels.csv"] in
  let args := ["data/blocklist.csv"] in
  exit_status (run c args) = Some 1
  ∧ fst (phase1 c initial) = inl (ProcessExit 1)
  ∧ run c args = (inl (ProcessExit 1), snd (phase1 c initial))
  ∧ ∃ msg, st_log (snd (run c args)) = [LogError msg].
Proof.
  apply (format_violation_aborts (Demo.core ["data/channels.csv"])
           ["data/blocklist.csv"] "data/channels.csv").
  - unfold allFiles. rewrite !elem_of_cons. auto.
  - left. vm_compute. discriminate.
Defined.

(** C10. The check of the end of the text rejects every text whose last
    character is white space, a final CRLF included, so a file that is
    loaded does not end in a line terminator; a known file whose text
    ends so stops the run with the line-ending or the empty-lines
    message, before its columns are counted, and the exit status
    is 1. *)
Theorem trailing_whitespace_is_fatal (c : Core) (args : list string)
    (filepath : string) :
  filepath ∈ allFiles →
  (∀ text, JS.ends_with_space (text +:+ JS.CRLF) = true)
  ∧ (∀ text ch, JS.is_space ch = true →
                JS.ends_with_space (JS.snoc text ch) = true)
  ∧ (∀ st st', loadFile c filepath tt st = (inr tt, st') →
               JS.ends_with_space (file_read c filepath) = false)
  ∧ (JS.ends_with_space (file_read c filepath) = true →
     (∀ st, loadFile c filepath tt st = handleError (msg_eol filepath) st
            ∨ loadFile c filepath tt st
              = handleError (msg_empty_lines filepath) st)
     ∧ exit_status (run c args) = Some 1
     ∧ ∃ msg, st_log (snd (run c args)) = [LogError msg]).
Proof.
  intros Hin. pose proof (allFiles_csv filepath Hin) as Hcsv.
  assert (Hload : JS.ends_with_space (file_read c filepath) = true →
    ∀ st, loadFile c filepath tt st = handleError (msg_eol filepath) st
          ∨ loadFile c filepath tt st
            = handleError (msg_empty_lines filepath) st).
  { intros Hsp st. unfold loadFile. rewrite Hcsv, Hsp. cbn [negb].
    destruct (String.eqb (file_eol c filepath) "CRLF"); cbn [negb]; auto. }
  split; [exact ends_with_space_crlf|].
  split; [intros text ch Hch; by rewrite ends_with_space_snoc|]. split.
  - intros st st' Hok.
    destruct (JS.ends_with_space (file_read c filepath)) eqn:Hsp; [|done].
    destruct (Hload eq_refl st) as [H|H]; rewrite H in Hok; done.
  - intros Hsp. split; [by apply Hload|].
    destruct (run_fatal c args filepath Hin) as (msg & st & Hrun & Hlog & _).
    { intros st. destruct (Hload Hsp st); by eexists. }
    rewrite Hrun. split; [done|by exists msg].
Qed.

(** The languages file with a line terminator after its last line. *)
Lemma trailing_whitespace_is_fatal_witness :
  let c := Demo.with_text "data/languages.csv"
             (Demo.languages_text +:+ JS.CRLF) (Demo.core []) in
  exit_status (run c []) = Some 1
  ∧ ∃ msg, st_log (snd (run c [])) = [LogError msg].
Proof.
  intros c.
  assert (Hin : "data/languages.csv" ∈ allFiles)
    by (unfold allFiles; rewrite !elem_of_cons; auto 10).
  destruct (trailing_whitespace_is_fatal c [] "data/languages.csv" Hin)
    as (_ & _ & _ & H).
  destruct (H eq_refl) as (_ & Hexit & Hlog). by split.
Defined.

(** ** Phase 2: the errors of one file *)

Section FileErrors.

Context (c : Core).

Lemma fold_left_push (mk : string → ValidationError) (details : list string) :
  ∀ errors,
    fold_left (fun errors detail => push errors (mk detail)) details errors
    = errors ++ map mk details.
Proof.
  induction details as [|d details IH]; intros errors; cbn [fold_left map].
  - by rewrite app_nil_r.
  - rewrite IH. unfold push. by rewrite <- app_assoc.
Qed.

Lemma schemaLoop_spec (filename : string) (rows : list Row) :
  ∀ i fileErrors,
    schemaLoop (schema_messages c filename) i rows fileErrors
    = fileErrors
      ++ concat (imap (fun k => schema_errors c filename (i + k)) rows).
Proof.
  induction rows as [|row rows IH]; intros i fileErrors;
    cbn [schemaLoop imap concat].
  - by rewrite app_nil_r.
  - rewrite IH, fold_left_push, <- app_assoc. unfold schema_errors at 2.
    rewrite Nat.add_0_r. do 2 f_equal. f_equal.
    apply imap_ext. intros k row' _. cbn. f_equal. lia.
Qed.

(** A loop whose body concatenates the result of a rule. *)
Lemma forEntries_rules
    (rule : nat → Row → option (list ValidationError))
    (body : nat → Row → list ValidationError
            → option (list ValidationError)) :
  (∀ i row fileErrors, body i row fileErrors
                       = concat_to fileErrors (rule i row)) →
  ∀ rows i fileErrors result,
    forEntries body i rows fileErrors = Some result →
    ∃ per : list (list ValidationError),
      length per = length rows
      ∧ (∀ k row, rows !! k = Some row →
           ∃ es, per !! k = Some es ∧ rule (i + k) row = Some es)
      ∧ result = fileErrors ++ concat per.
Proof.
  intros Hbody. induction rows as [|row rows IH];
    intros i fileErrors result Hrun; cbn [forEntries] in Hrun.
  - injection Hrun as <-. exists []. split; [done|]. split; [done|].
    by rewrite app_nil_r.
  - rewrite Hbody in Hrun. unfold concat_to in Hrun.
    destruct (rule i row) as [es|] eqn:Hrule; [|done].
    cbn in Hrun. apply IH in Hrun as (per & Hlen & Hper & ->).
    exists (es :: per). split; [cbn; by rewrite Hlen|]. split.
    + intros [|k] row' Hk; cbn in Hk.
      * injection Hk as <-. exists es. by rewrite Nat.add_0_r.
      * destruct (Hper k row' Hk) as (es' & ? & Hr). exists es'.
        split; [done|]. by rewrite Nat.add_succ_r.
    + cbn [concat]. by rewrite <- app_assoc.
Qed.

Lemma channelRules_rules_of (db : Db) (i : nat) (row : Row)
    (fileErrors : list ValidationError) :
  channelRules db i row fileErrors
  = concat_to fileErrors (rules_of db "channels" i row).
Proof.
  unfold channelRules, rules_of, concat_to. cbn [String.eqb Ascii.eqb].
  change (String.eqb "channels" "channels") with true. cbn match.
  destruct (validateChannelBroadcastArea db row i); [|done].
  destruct (validateChannelSubdivision db row i); [|done].
  destruct (validateChannelCategories db row i); [|done].
  destruct (validateChannelReplacedBy db row i); [|done].
  destruct (validateChannelLanguages db row i); [|done].
  destruct (validateChannelCountry db row i); [|done].
  cbn. by rewrite <- !app_assoc.
Qed.

Lemma validateFile_eq (filename : string) (st : State) :
  validateFile c filename st =
  match st_files st !! filename with
  | None => (inl Uncaught, st)
  | Some rows =>
      let '(rows', fileErrors) := referential (st_db st) filename rows in
      let st' := {| st_db := st_db st;
                    st_files := <[filename := rows']> (st_files st);
                    st_log := st_log st |} in
      match fileErrors with
      | None => (inl Uncaught, st')
      | Some fileErrors =>
          (inr (schemaLoop (schema_messages c filename) 0 rows' fileErrors),
           st')
      end
  end.
Proof.
  unfold validateFile, mbind, M_bind, get_state, lift, throw, set_rows,
    mret, M_ret.
  destruct (st_files st !! filename) as [rows|]; [|done].
  destruct (referential (st_db st) filename rows) as [rows' [fe|]]; done.
Qed.

(** The chain of [if]s: the duplicates (of channels), then the rules
    row by row. *)
Lemma referential_spec (db : Db) (filename : string)
    (rows rows' : list Row) (fileErrors : list ValidationError) :
  referential db filename rows = (rows', Some fileErrors) →
  ∃ dups per,
    (if String.eqb filename "channels"
     then findDuplicatesById rows = (rows', Some dups)
     else rows' = rows ∧ dups = [])
    ∧ length per = length rows'
    ∧ (∀ i row, rows' !! i = Some row →
         ∃ es, per !! i = Some es ∧ rules_of db filename i row = Some es)
    ∧ fileErrors = dups ++ concat per.
Proof.
  unfold referential, rules_of.
  destruct (String.eqb filename "channels") eqn:Hch.
  { apply String.eqb_eq in Hch as ->.
    destruct (findDuplicatesById rows) as [rows1 [dups|]] eqn:Hdup;
      intros [= <- Hrun]; cbn in Hrun; try done.
    apply (forEntries_rules (rules_of db "channels")) in Hrun
      as (per & Hlen & Hper & ->);
      [|intros; apply channelRules_rules_of].
    exists dups, per. repeat split; try done. }
  assert (Hone : ∀ rule : Db → Row → nat → option (list ValidationError),
    forEntries (oneRule rule db) 0 rows [] = Some fileErrors →
    ∃ per, length per = length rows
      ∧ (∀ i row, rows !! i = Some row →
           ∃ es, per !! i = Some es ∧ rule db row i = Some es)
      ∧ fileErrors = concat per).
  { intros rule Hrun.
    apply (forEntries_rules (fun i row => rule db row i)) in Hrun
      as (per & Hlen & Hper & ->); [|done].
    by exists per. }
  repeat case_match; intros [= <- Hrun];
    try (apply Hone in Hrun as (per & Hlen & Hper & ->);
         exists [], per; repeat split; done).
  subst fileErrors. exists [], (replicate (length rows) []).
  split; [done|]. split; [by rewrite length_replicate|]. split.
  - intros i row Hi. exists []. split; [|done].
    apply lookup_replicate_2. by apply lookup_lt_Some in Hi.
  - clear. induction (length rows); [done|]. cbn. done.
Qed.

End FileErrors.

(** C6. The errors of a validated file are, in this order: the errors
    of the duplicate detector (channels only), then the errors of the
    reference rules row by row (all the rules of the first row, then of
    the second, and so on), then the schema errors row by row. *)
Theorem file_errors_order (c : Core) (filename : string) (st st' : State)
    (fileErrors : list ValidationError) :
  validateFile c filename st = (inr fileErrors, st') →
  ∃ (rows rows' : list Row) (dups : list ValidationError)
    (per : list (list ValidationError)),
    st_files st !! filename = Some rows
    ∧ st_files st' !! filename = Some rows'
    ∧ (if String.eqb filename "channels"
       then findDuplicatesById rows = (rows', Some dups)
       else rows' = rows ∧ dups = [])
    ∧ length per = length rows'
    ∧ (∀ i row, rows' !! i = Some row →
         ∃ es, per !! i = Some es
               ∧ rules_of (st_db st) filename i row = Some es)
    ∧ fileErrors
      = dups ++ concat per ++ concat (imap (schema_errors c filename) rows').
Proof.
  rewrite validateFile_eq.
  destruct (st_files st !! filename) as [rows|] eqn:Hrows; [|done].
  destruct (referential (st_db st) filename rows) as [rows' [fe|]] eqn:Href;
    [|done].
  intros [= <- <-].
  apply referential_spec in Href as (dups & per & Hdup & Hlen & Hper & ->).
  exists rows, rows', dups, per. cbn [st_files].
  rewrite lookup_insert_eq, schemaLoop_spec, <- app_assoc.
  repeat split; done.
Qed.

(** Two channels with the same id but for the case, both without a
    name, unknown categories in the first, an unknown language and an
    unknown country in the second: the error of the duplicate (line 3)
    comes first, then the errors of the rules of the first row (line 2)
    and of the second row (line 3), each row in the order of its rules,
    then the schema errors of the first and of the second row. *)
Lemma file_errors_order_witness :
  let c := Cases.rich in
  let st := Cases.rich_loaded in
  let wrong (what value : string) (n : nat) :=
    {| line := n;
       message := quoted "bbcone.uk" +:+ " has the wrong " +:+ what +:+ " "
                  +:+ quoted value |} in
  let unnamed (n : nat) :=
    {| line := n;
       message := quoted "name" +:+ " is not allowed to be empty" |} in
  let dups :=
    [ {| line := 3;
         message := "entry with the id " +:+ quoted "bbcone.uk"
                    +:+ " already exists" |} ] in
  let per :=
    [ [ wrong "category" "xxx" 2; wrong "category" "yyy" 2 ];
      [ wrong "language" "zzz" 3; wrong "country" "ZZ" 3 ] ] in
  let fileErrors := dups ++ concat per ++ [ unnamed 2; unnamed 3 ] in
  (∃ (rows rows' : list Row) (dups' : list ValidationError)
     (per' : list (list ValidationError)),
     st_files st !! "channels" = Some rows
     ∧ st_files (snd (validateFile c "channels" st)) !! "channels"
       = Some rows'
     ∧ findDuplicatesById rows = (rows', Some dups')
     ∧ length per' = length rows'
     ∧ (∀ i row, rows' !! i = Some row →
          ∃ es, per' !! i = Some es
                ∧ rules_of (st_db st) "channels" i row = Some es)
     ∧ fileErrors
       = dups' ++ concat per'
         ++ concat (imap (schema_errors c "channels") rows'))
  ∧ snd (findDuplicatesById Cases.two_channels) = Some dups
  ∧ (∀ i row, fst (findDuplicatesById Cases.two_channels) !! i = Some row →
       rules_of (st_db st) "channels" i row = per !! i)
  ∧ concat (imap (schema_errors c "channels")
                 (fst (findDuplicatesById Cases.two_channels)))
    = [ unnamed 2; unnamed 3 ].
Proof.
  intros c st wrong unnamed dups per fileErrors. split.
  - apply (file_errors_order c "channels" st
             (snd (validateFile c "channels" st)) fileErrors).
    vm_compute. reflexivity.
  - split; [vm_compute; reflexivity|]. split; [|vm_compute; reflexivity].
    intros [|[|i]] row Hrow; vm_compute in Hrow; [| |done];
      injection Hrow as <-; vm_compute; reflexivity.
Defined.

(** ** Phase 2: the run *)

Section Run.

Context (c : Core).

Lemma report_spec (fileErrors : list ValidationError) :
  ∀ st, ∃ st', report fileErrors st = (inr tt, st')
               ∧ st_db st' = st_db st ∧ st_files st' = st_files st.
Proof.
  induction fileErrors as [|err rest IH]; intros st; cbn [report].
  - by exists st.
  - unfold mbind, M_bind, logger.
    destruct (IH {| st_db := st_db st; st_files := st_files st;
                    st_log := st_log st
                              ++ [LogLine (line err) (message err)] |})
      as (st' & -> & Hdb & Hfiles).
    by exists st'.
Qed.

(** A file that is validated adds its errors to [globalErrors]. *)
Lemma checkFile_inv (filepath : string)
    (globalErrors globalErrors' : list ValidationError) (st st' : State) :
  checkFile c filepath globalErrors st = (inr globalErrors', st') →
  schemes_has c (file_getFilename c filepath) = true
  ∧ ∃ fileErrors st1,
      validateFile c (file_getFilename c filepath) st = (inr fileErrors, st1)
      ∧ globalErrors' = globalErrors ++ fileErrors
      ∧ st_db st' = st_db st1 ∧ st_files st' = st_files st1.
Proof.
  unfold checkFile.
  destruct (schemes_has c (file_getFilename c filepath)); cbn [negb];
    [|done].
  intros (fileErrors & st1 & Hval & Hrest)%bind_inv_inr.
  split; [done|]. exists fileErrors, st1. split; [done|].
  destruct fileErrors as [|err rest].
  - injection Hrest as <- <-. by rewrite app_nil_r.
  - apply bind_inv_inr in Hrest as ([] & st2 & Hlog & Hrest).
    apply bind_inv_inr in Hrest as ([] & st3 & Hrep & Hrest).
    injection Hrest as <- <-. injection Hlog as <-.
    destruct (report_spec (err :: rest)
                {| st_db := st_db st1; st_files := st_files st1;
                   st_log := st_log st1 ++ [LogFile filepath] |})
      as (st4 & Hrep' & Hdb & Hfiles).
    rewrite Hrep' in Hrep. injection Hrep as <-. done.
Qed.

(** [globalErrors] at the end of the second loop: the errors of the
    files, one file after the other. *)
Lemma forOf_checkFile_validated (fs : list string) :
  ∀ globalErrors globalErrors' st st',
    forOf (checkFile c) fs globalErrors st = (inr globalErrors', st') →
    ∃ ess, validated c fs st ess st'
           ∧ globalErrors' = globalErrors ++ concat ess.
Proof.
  induction fs as [|f fs IH]; intros g g' st st' Hrun; cbn [forOf] in Hrun.
  - injection Hrun as <- <-. exists []. split; [constructor|].
    by rewrite app_nil_r.
  - apply bind_inv_inr in Hrun as (g1 & st1 & Hf & Hrest).
    apply checkFile_inv in Hf
      as (Hsch & es & st0 & Hval & -> & Hdb & Hfiles).
    apply IH in Hrest as (ess & Hv & ->).
    exists (es :: ess). split; [by econstructor|].
    cbn [concat]. by rewrite <- app_assoc.
Qed.

End Run.

(** C7. When no fatal error ends the run, the exit status is 0 exactly
    when no error was accumulated over the validated files, and it is 1
    when there is one or more. *)
Theorem exit_status_reflects_errors (c : Core) (args : list string)
    (st1 st2 : State) (globalErrors : list ValidationError) :
  phase1 c initial = (inr tt, st1) →
  phase2 c args st1 = (inr globalErrors, st2) →
  (exit_status (run c args) = Some 0 ↔ length globalErrors = 0)
  ∧ (length globalErrors ≠ 0 → exit_status (run c args) = Some 1)
  ∧ ∃ ess, validated c (match args with [] => allFiles | _ => args end)
             st1 ess st2
           ∧ globalErrors = concat ess.
Proof.
  intros H1 H2.
  assert (Hrun : run c args =
    match globalErrors with
    | [] => mret tt
    | _ => handleError (msg_total globalErrors)
    end st2).
  { unfold run, main. rewrite (bind_inr _ _ _ _ _ H1).
    by rewrite (bind_inr _ _ _ _ _ H2). }
  rewrite Hrun. split; [|split].
  - destruct globalErrors; cbn; split; done.
  - destruct globalErrors; cbn; done.
  - unfold phase2 in H2.
    apply forOf_checkFile_validated in H2 as (ess & Hv & ->). by exists ess.
Qed.

(** The countries of the dataset have no error: the status is 0. *)
Lemma exit_status_reflects_errors_witness :
  let c := Demo.core [] in
  let args := ["data/countries.csv"] in
  (exit_status (run c args) = Some 0 ↔ length (@nil ValidationError) = 0)
  ∧ (length (@nil ValidationError) ≠ 0 → exit_status (run c args) = Some 1)
  ∧ ∃ ess, validated c args Demo.loaded ess
             (snd (phase2 c args Demo.loaded))
           ∧ [] = concat ess.
Proof.
  apply (exit_status_reflects_errors (Demo.core []) ["data/countries.csv"]
           Demo.loaded
           (snd (phase2 (Demo.core []) ["data/countries.csv"] Demo.loaded))
           []).
  - vm_compute. reflexivity.
  - vm_compute. reflexivity.
Defined.

(** ** The reference rules *)

Section Rules.

Lemma append_assoc (s t u : string) : (s +:+ t) +:+ u = s +:+ (t +:+ u).
Proof.
  induction s as [|a s IH]; [done|]. rewrite !append_cons. by f_equal.
Qed.

Lemma append_empty_r (s : string) : s +:+ EmptyString = s.
Proof. induction s as [|a s IH]; [done|]. rewrite append_cons. by f_equal. Qed.

Lemma snoc_append (cur : string) (a : ascii) (t : string) :
  JS.snoc cur a +:+ t = cur +:+ String a t.
Proof. unfold JS.snoc. by rewrite append_assoc. Qed.

(** Splitting a text that has no separator, and one that has a first
    separator. *)
Lemma split_char_go_none (sep : ascii) (t : string) :
  ∀ cur, has_char sep t = false →
         JS.split_char_go sep t cur = [cur +:+ t].
Proof.
  induction t as [|a t IH]; intros cur Hno; cbn in *.
  - by rewrite append_empty_r.
  - apply orb_false_iff in Hno as [-> Hno].
    rewrite IH by done. by rewrite snoc_append.
Qed.

Lemma split_char_go_first (sep : ascii) (t rest : string) :
  ∀ cur, has_char sep t = false →
         JS.split_char_go sep (t +:+ String sep rest) cur
         = (cur +:+ t) :: JS.split_char_go sep rest EmptyString.
Proof.
  induction t as [|a t IH]; intros cur Hno.
  - rewrite append_empty, append_empty_r. cbn.
    by rewrite Ascii.eqb_refl.
  - cbn in Hno. apply orb_false_iff in Hno as [Ha Hno].
    rewrite append_cons. cbn [JS.split_char_go]. rewrite Ha.
    rewrite IH by done. by rewrite snoc_append.
Qed.

(** A loop that pushes one error for every element that fails a
    test. *)
Lemma forEntries_push (test : string → option bool)
    (mk : string → ValidationError) (xs : list string) :
  (∀ x, x ∈ xs → is_Some (test x)) →
  ∀ i errors,
    forEntries (fun _ x errors =>
                  match test x with
                  | Some true => Some (push errors (mk x))
                  | Some false => Some errors
                  | None => None
                  end) i xs errors
    = Some (errors ++ flat_map (fun x => match test x with
                                         | Some true => [mk x]
                                         | _ => []
                                         end) xs).
Proof.
  induction xs as [|x xs IH]; intros Htot i errors;
    cbn [forEntries flat_map].
  - by rewrite app_nil_r.
  - destruct (Htot x) as [b Hb]; [by left|]. rewrite Hb.
    destruct b; cbn match;
      (rewrite IH by (intros; apply Htot; by right));
      unfold push; by rewrite <- ?app_assoc.
Qed.

(** The condition of the broadcast area rule when the three tables
    are there. *)
Lemma wrong_area_spec (db : Db) (regions countries subdivisions : Index)
    (type : string) (code : Value) :
  db !! "regions" = Some regions →
  db !! "countries" = Some countries →
  db !! "subdivisions" = Some subdivisions →
  wrong_area db type code =
  Some (if String.eqb type "r"
        then negb (has_property regions (toString code))
        else if String.eqb type "c"
        then negb (has_property countries (toString code))
        else if String.eqb type "s"
        then negb (has_property subdivisions (toString code))
        else false).
Proof.
  intros Hr Hc Hs. unfold wrong_area, type_and_missing, missing.
  rewrite Hr, Hc, Hs.
  destruct (String.eqb_spec type "r") as [->|_].
  { cbn [String.eqb Ascii.eqb Bool.eqb]. by destruct (negb _). }
  destruct (String.eqb_spec type "c") as [->|_].
  { cbn [String.eqb Ascii.eqb Bool.eqb]. by destruct (negb _). }
  by destruct (String.eqb type "s").
Qed.

End Rules.

(** X20. Every element of [broadcast_area] of a channels row is split
    on the slash into a type and a code; the code is read in the regions
    for the type [r], in the countries for [c], in the subdivisions for
    [s]; a code that is neither a key of that index nor the name of an
    inherited property gives one error, with the id of the row and the
    whole element in its message; a key, an inherited name and an
    element of another type give no error. *)
Theorem broadcast_area_rule (db : Db) (regions countries subdivisions : Index)
    (row : Row) (i : nat) (areas : list string) :
  db !! "regions" = Some regions →
  db !! "countries" = Some countries →
  db !! "subdivisions" = Some subdivisions →
  field row "broadcast_area" = VList areas →
  (∀ t code, has_char "/" t = false → has_char "/" code = false →
     area_type (t +:+ "/" +:+ code) = t
     ∧ area_code (t +:+ "/" +:+ code) = VStr code)
  ∧ ∃ per : string → list ValidationError,
      validateChannelBroadcastArea db row i = Some (flat_map per areas)
      ∧ ∀ area,
          let type := area_type area in
          let code := toString (area_code area) in
          let err :=
            {| line := i + 2;
               message := quoted (toString (field row "id")) +:+
                          " has the wrong broadcast_area " +:+ quoted area |} in
          (type = "r" →
           per area = if has_property regions code then [] else [err])
          ∧ (type = "c" →
             per area = if has_property countries code then [] else [err])
          ∧ (type = "s" →
             per area = if has_property subdivisions code then [] else [err])
          ∧ (type ≠ "r" → type ≠ "c" → type ≠ "s" → per area = []).
Proof.
  intros Hr Hc Hs Hareas. split.
  { intros t code Ht Hcode. unfold area_type, area_code, JS.split_char.
    change ("/" +:+ code) with (String "/" code).
    rewrite split_char_go_first by done.
    rewrite split_char_go_none by done. done. }
  set (mk := fun area =>
    {| line := i + 2;
       message := quoted (toString (field row "id")) +:+
                  " has the wrong broadcast_area " +:+ quoted area |}).
  set (test := fun area => wrong_area db (area_type area) (area_code area)).
  exists (fun area => match test area with
                      | Some true => [mk area] | _ => [] end).
  split.
  - unfold validateChannelBroadcastArea. rewrite Hareas.
    unfold forEachOf, forEach.
    rewrite (forEntries_push test mk); [done|].
    intros area _. unfold test.
    rewrite (wrong_area_spec _ _ _ _ _ _ Hr Hc Hs). by eexists.
  - intros area. unfold test.
    rewrite (wrong_area_spec _ _ _ _ _ _ Hr Hc Hs). cbn zeta.
    repeat split.
    + intros ->. cbn [String.eqb Ascii.eqb Bool.eqb].
      by destruct (has_property regions _).
    + intros ->. cbn [String.eqb Ascii.eqb Bool.eqb].
      by destruct (has_property countries _).
    + intros ->. cbn [String.eqb Ascii.eqb Bool.eqb].
      by destruct (has_property subdivisions _).
    + intros Hnr Hnc Hns.
      destruct (String.eqb_spec (area_type area) "r"); [done|].
      destruct (String.eqb_spec (area_type area) "c"); [done|].
      destruct (String.eqb_spec (area_type area) "s"); done.
Qed.

(** Elements of the types [c], [r], [s], of another type, without a
    slash, and with the name of an inherited property for code, against
    the tables of the dataset. *)
Lemma broadcast_area_rule_witness :
  let areas := ["c/UK"; "r/ZZ"; "s/GB-ENG"; "x/UK"; "c"; "r/constructor"] in
  let row := Demo.row [("id", VStr "One.uk"); ("broadcast_area", VList areas)] in
  ∃ per : string → list ValidationError,
    validateChannelBroadcastArea (st_db Demo.loaded) row 0
    = Some (flat_map per areas)
    ∧ per "c/UK" = [] ∧ per "s/GB-ENG" = [] ∧ per "x/UK" = []
    ∧ per "r/ZZ" = [ {| line := 2;
                        message := quoted "One.uk" +:+
                                   " has the wrong broadcast_area " +:+
                                   quoted "r/ZZ" |} ]
    ∧ per "c" = [ {| line := 2;
                     message := quoted "One.uk" +:+
                                " has the wrong broadcast_area " +:+
                                quoted "c" |} ]
    ∧ per "r/constructor" = [].
Proof.
  intros areas row.
  destruct (broadcast_area_rule (st_db Demo.loaded)
              (keyBy Demo.regions_rows "code")
              (keyBy Demo.countries_rows "code")
              (keyBy Demo.subdivisions_rows "code")
              row 0 areas)
    as (_ & per & Hrun & Hper); try (vm_compute; reflexivity).
  exists per. split; [exact Hrun|].
  split; [exact (proj1 (proj2 (Hper "c/UK")) eq_refl)|].
  split; [exact (proj1 (proj2 (proj2 (Hper "s/GB-ENG"))) eq_refl)|].
  split; [apply (proj2 (proj2 (proj2 (Hper "x/UK")))); discriminate|].
  split; [exact (proj1 (Hper "r/ZZ") eq_refl)|].
  split; [exact (proj1 (proj2 (Hper "c")) eq_refl)|].
  exact (proj1 (Hper "r/constructor") eq_refl).
Defined.

(** C4 on an element whose code names an inherited property: the
    regions of the dataset have no key [constructor], the element
    [r/constructor] has the type [r] and the code [constructor], and
    the rule gives no error for it, where an unknown code as [ZZ] gives
    one. *)
Lemma inherited_area_code_passes :
  let regions := keyBy Demo.regions_rows "code" in
  let row (area : string) :=
    Demo.row [("id", VStr "One.uk"); ("broadcast_area", VList [area])] in
  st_db Demo.loaded !! "regions" = Some regions
  ∧ regions !! "constructor" = None
  ∧ regions !! "ZZ" = None
  ∧ area_type "r/constructor" = "r"
  ∧ area_code "r/constructor" = VStr "constructor"
  ∧ validateChannelBroadcastArea (st_db Demo.loaded) (row "r/constructor") 0
    = Some []
  ∧ validateChannelBroadcastArea (st_db Demo.loaded) (row "r/ZZ") 0
    = Some [ {| line := 2;
                message := quoted "One.uk" +:+
                           " has the wrong broadcast_area " +:+
                           quoted "r/ZZ" |} ].
Proof. repeat split; vm_compute; reflexivity. Qed.

(** ** The indexes *)

Section Indexes.

Context (c : Core).

(** The keys of an index are the strings of the key field of the
    rows, as they are. *)
Lemma keyBy_go_is_Some (key : string) (data : list Row) :
  ∀ i (grouped : Index) k,
    is_Some (keyBy_go key i data grouped !! k)
    ↔ is_Some (grouped !! k)
      ∨ ∃ row, row ∈ data ∧ toString (field row key) = k.
Proof.
  induction data as [|row data IH]; intros i grouped k; cbn [keyBy_go].
  - split; [by left|]. intros [H|(row & Hin & _)]; [done|].
    by apply not_elem_of_nil in Hin.
  - rewrite IH, lookup_insert_is_Some. split.
    + intros [[Hk|[_ H]]|(row' & Hin & Hk)].
      * right. exists row. split; [by left|done].
      * by left.
      * right. exists row'. split; [by right|done].
    + intros [H|(row' & Hin & Hk)].
      * destruct (decide (toString (field row key) = k)); [by do 2 left|].
        left. by right.
      * apply elem_of_cons in Hin as [->|Hin]; [by do 2 left|].
        right. by exists row'.
Qed.

Lemma keyBy_is_Some (key : string) (data : list Row) (k : string) :
  is_Some (keyBy data key !! k)
  ↔ ∃ row, row ∈ data ∧ toString (field row key) = k.
Proof.
  unfold keyBy. rewrite keyBy_go_is_Some, lookup_empty.
  split; [intros [[? H]|H]; done | by right].
Qed.

(** What a file that is loaded leaves in [db] and [files]. *)
Lemma loadFile_ok (filepath : string) (st st' : State) :
  JS.endsWith filepath ".csv" = true →
  loadFile c filepath tt st = (inr tt, st') →
  ∃ data,
    csv_fromString c (file_read c filepath) = inr data
    ∧ st' = {| st_db := <[file_getFilename c filepath :=
                          keyBy data (key_field (file_getFilename c filepath))]>
                        (st_db st);
               st_files := <[file_getFilename c filepath := data]>
                             (st_files st);
               st_log := st_log st |}.
Proof.
  intros Hcsv. unfold loadFile. rewrite Hcsv. cbn [negb].
  repeat case_match; try done.
  intros [= <-]. by eexists.
Qed.

(** Reading an index at a name that no plain object inherits finds
    just the keys. *)
Lemma has_property_own (index : Index) (key : string) :
  key ∉ inherited →
  has_property index key = true ↔ is_Some (index !! key).
Proof.
  intros Hown. unfold has_property.
  rewrite (bool_decide_eq_false_2 (key ∈ inherited)) by done.
  rewrite orb_false_r. apply bool_decide_eq_true.
Qed.

(** The rules that look a channel up test the key as it is. *)
Lemma missing_false_iff (db : Db) (table : string) (index : Index)
    (key : Value) :
  db !! table = Some index →
  toString key ∉ inherited →
  missing db table key = Some false ↔ is_Some (index !! toString key).
Proof.
  intros Ht Hown. unfold missing. rewrite Ht.
  rewrite <- (has_property_own index) by done.
  destruct (has_property index (toString key)); cbn; split; done.
Qed.

Lemma validateChannelId_passes (db : Db) (channels : Index) (row : Row)
    (i : nat) :
  db !! "channels" = Some channels →
  toString (field row "channel") ∉ inherited →
  validateChannelId db row i = Some []
  ↔ is_Some (channels !! toString (field row "channel")).
Proof.
  intros Hch Hown. rewrite <- (missing_false_iff db "channels") by done.
  unfold validateChannelId.
  destruct (missing db "channels" (field row "channel")) as [[]|];
    split; done.
Qed.

Lemma validateChannelReplacedBy_passes (db : Db) (channels : Index)
    (row : Row) (i : nat) :
  db !! "channels" = Some channels →
  truthy (field row "replaced_by") = true →
  toString (field row "replaced_by") ∉ inherited →
  validateChannelReplacedBy db row i = Some []
  ↔ is_Some (channels !! toString (field row "replaced_by")).
Proof.
  intros Hch Htr Hown. rewrite <- (missing_false_iff db "channels") by done.
  unfold validateChannelReplacedBy. rewrite Htr.
  destruct (missing db "channels" (field row "replaced_by")) as [[]|];
    split; done.
Qed.

End Indexes.

(** C2, as the code has it. Every table, channels included, is indexed
    under the string of its key field as it is in the row, without any
    change of case; the [channel] check of the blocklist and the
    [replaced_by] check of the channels read the channels index at the
    value of the field as it is: for a value that is not the name of a
    property that objects inherit, they pass exactly when the value is
    a key of the index. *)
Theorem index_keys_verbatim (c : Core) (filepath : string) (st st' : State) :
  JS.endsWith filepath ".csv" = true →
  loadFile c filepath tt st = (inr tt, st') →
  (∃ data index,
     csv_fromString c (file_read c filepath) = inr data
     ∧ st_files st' !! file_getFilename c filepath = Some data
     ∧ st_db st' !! file_getFilename c filepath = Some index
     ∧ ∀ k, is_Some (index !! k)
            ↔ ∃ row, row ∈ data
                ∧ toString (field row
                              (key_field (file_getFilename c filepath))) = k)
  ∧ key_field "channels" = "id"
  ∧ ∀ (db : Db) (channels : Index) (row : Row) (i : nat),
      db !! "channels" = Some channels →
      (toString (field row "channel") ∉ inherited →
       (validateChannelId db row i = Some []
        ↔ is_Some (channels !! toString (field row "channel"))))
      ∧ (truthy (field row "replaced_by") = true →
         toString (field row "replaced_by") ∉ inherited →
         (validateChannelReplacedBy db row i = Some []
          ↔ is_Some (channels !! toString (field row "replaced_by")))).
Proof.
  intros Hcsv Hload.
  apply loadFile_ok in Hload as (data & Hparse & ->); [|done].
  split; [|split; [done|]].
  - exists data, (keyBy data (key_field (file_getFilename c filepath))).
    cbn [st_db st_files]. rewrite !lookup_insert_eq.
    repeat split; try done; by apply keyBy_is_Some.
  - intros db channels row i Hch. split.
    + intros Hown. by apply validateChannelId_passes.
    + intros Htr Hown. by apply validateChannelReplacedBy_passes.
Qed.

(** The channels file of the dataset, loaded first, and the checks of
    two blocklist rows against its index: one names the channel as the
    file has it, the other in lower case. *)
Lemma index_keys_verbatim_witness :
  let c := Demo.core [] in
  let filepath := "data/channels.csv" in
  let st' := snd (loadFile c filepath tt initial) in
  let channels := keyBy Demo.channels_rows "id" in
  let as_in_file := Demo.row [("channel", VStr "BBCOne.uk")] in
  let lowered := Demo.row [("channel", VStr "bbcone.uk")] in
  (∃ data index,
     csv_fromString c (file_read c filepath) = inr data
     ∧ st_files st' !! file_getFilename c filepath = Some data
     ∧ st_db st' !! file_getFilename c filepath = Some index
     ∧ ∀ k, is_Some (index !! k)
            ↔ ∃ row, row ∈ data
                ∧ toString (field row
                              (key_field (file_getFilename c filepath))) = k)
  ∧ (validateChannelId (st_db Demo.loaded) as_in_file 0 = Some []
     ↔ is_Some (channels !! "BBCOne.uk"))
  ∧ (validateChannelId (st_db Demo.loaded) lowered 0 = Some []
     ↔ is_Some (channels !! "bbcone.uk")).
Proof.
  intros c filepath st' channels as_in_file lowered.
  assert (Hload : loadFile c filepath tt initial = (inr tt, st'))
    by (vm_compute; reflexivity).
  destruct (index_keys_verbatim c filepath initial st' eq_refl Hload)
    as (Hindex & _ & Hchecks).
  split; [exact Hindex|]. split.
  - apply (Hchecks (st_db Demo.loaded) channels as_in_file 0);
      [vm_compute; reflexivity|].
    apply (bool_decide_unpack _). vm_compute. exact I.
  - apply (Hchecks (st_db Demo.loaded) channels lowered 0);
      [vm_compute; reflexivity|].
    apply (bool_decide_unpack _). vm_compute. exact I.
Defined.

(** C2, as the specification has it, fails: the index of the channels
    of the dataset has the key of the row with its capitals and no
    lower-case key, and the blocklist row that names the channel in
    lower case is reported as missing. *)
Lemma channels_index_keeps_case :
  ∃ index : Index,
    phase1 (Demo.core []) initial = (inr tt, Demo.loaded)
    ∧ st_db Demo.loaded !! "channels" = Some index
    ∧ index !! "BBCOne.uk" = Some 0
    ∧ JS.toLowerCase "BBCOne.uk" = "bbcone.uk"
    ∧ index !! "bbcone.uk" = None
    ∧ Demo.blocklist_rows !! 0
      = Some (Demo.row [("channel", VStr "bbcone.uk");
                        ("ref", VStr "https://example.org")])
    ∧ ∀ row, Demo.blocklist_rows !! 0 = Some row →
        validateChannelId (st_db Demo.loaded) row 0
        = Some [ {| line := 2;
                    message := quoted "bbcone.uk" +:+
                               " is missing in the channels.csv" |} ].
Proof.
  exists (keyBy Demo.channels_rows "id").
  split; [vm_compute; reflexivity|].
  split; [vm_compute; reflexivity|].
  split; [vm_compute; reflexivity|].
  split; [reflexivity|].
  split; [vm_compute; reflexivity|].
  split; [reflexivity|].
  intros row [= <-]. vm_compute. reflexivity.
Qed.

(** ** The duplicate detector *)

Section Duplicates.

Context {A : Type} (comparator : A → A → bool).

(** The rule stops at the first element that matches an earlier one:
    it reports that element, and no other. *)
Lemma unique_go_Some (value : list A) :
  ∀ seen i j item,
    Joi.unique_go comparator seen i value = Some (j, item) →
    ∃ k, j = i + k
         ∧ value !! k = Some item
         ∧ existsb (fun earlier => comparator earlier item)
                   (seen ++ take k value) = true
         ∧ ∀ k' item', k' < k → value !! k' = Some item' →
             existsb (fun earlier => comparator earlier item')
                     (seen ++ take k' value) = false.
Proof.
  induction value as [|x value IH]; intros seen i j item;
    cbn [Joi.unique_go]; [done|].
  destruct (existsb _ seen) eqn:Hx.
  - intros [= <- <-]. exists 0. rewrite Nat.add_0_r, take_0, app_nil_r.
    repeat split; [done|]. intros; lia.
  - intros (k & -> & Hk & Hdup & Hfirst)%IH. exists (S k).
    rewrite Nat.add_succ_r. cbn [take]. split; [done|]. split; [done|].
    split; [by rewrite cons_middle, app_assoc|].
    intros [|k'] item' Hlt Hk'.
    + injection Hk' as <-. by rewrite take_0, app_nil_r.
    + cbn [take]. rewrite cons_middle, app_assoc.
      apply Hfirst; [lia|done].
Qed.

Lemma unique_go_None (value : list A) :
  ∀ seen i,
    Joi.unique_go comparator seen i value = None
    ↔ ∀ k item, value !! k = Some item →
        existsb (fun earlier => comparator earlier item)
                (seen ++ take k value) = false.
Proof.
  induction value as [|x value IH]; intros seen i; cbn [Joi.unique_go].
  - split; [intros _ k item Hk; done | done].
  - destruct (existsb _ seen) eqn:Hx.
    + split; [done|]. intros H. specialize (H 0 x eq_refl).
      rewrite take_0, app_nil_r in H. congruence.
    + rewrite IH. split.
      * intros H [|k] item Hk.
        -- injection Hk as <-. by rewrite take_0, app_nil_r.
        -- cbn [take]. rewrite cons_middle, app_assoc. by apply H.
      * intros H k item Hk. specialize (H (S k) item Hk).
        cbn [take] in H. by rewrite cons_middle, app_assoc in H.
Qed.

Lemma unique_details_length (value : list A) :
  length (Joi.unique_details comparator value) ≤ 1.
Proof.
  unfold Joi.unique_details.
  destruct (Joi.unique_go comparator [] 0 value); cbn; lia.
Qed.

End Duplicates.

Section Frame.

Context (c : Core).

(** The detector returns one error at most. *)
Lemma findDuplicatesById_at_most_one (rows rows' : list Row)
    (errors : list ValidationError) :
  findDuplicatesById rows = (rows', Some errors) → length errors ≤ 1.
Proof.
  unfold findDuplicatesById.
  destruct (lowerIds rows) as [rows1 []]; intros [= <- <-].
  rewrite length_map. apply unique_details_length.
Qed.

(** What the detector reports: nothing when no row has the id of an
    earlier row; otherwise the first row that has, with its own line
    and its id in lower case. *)
Lemma findDuplicatesById_reports_first (rows rows' : list Row)
    (errors : list ValidationError) :
  let same_id (row earlier : Row) :=
    strict_eq (field earlier "id") (field row "id") in
  findDuplicatesById rows = (rows', Some errors) →
  (errors = []
   ∧ ∀ k row, rows' !! k = Some row →
       existsb (same_id row) (take k rows') = false)
  ∨ ∃ k row,
      errors = [ {| line := k + 2;
                    message := "entry with the id " +:+
                               quoted (toString (field row "id")) +:+
                               " already exists" |} ]
      ∧ rows' !! k = Some row
      ∧ existsb (same_id row) (take k rows') = true
      ∧ ∀ k' row', k' < k → rows' !! k' = Some row' →
          existsb (same_id row') (take k' rows') = false.
Proof.
  intros same_id. unfold findDuplicatesById, Joi.unique_details.
  destruct (lowerIds rows) as [rows1 []]; intros [= <- <-].
  destruct (Joi.unique_go _ [] 0 rows1) as [[j item]|] eqn:Hgo.
  - right. apply unique_go_Some in Hgo as (k & -> & Hk & Hdup & Hfirst).
    exists k, item. cbn [map fst snd Nat.add]. repeat split; try done.
  - left. split; [done|]. intros k row Hk.
    by apply (proj1 (unique_go_None _ _ _ _) Hgo k row).
Qed.

(** What the detector writes: the [id] of the rows, nothing else. *)
Lemma lowerIds_frame (rows : list Row) :
  ∀ rows' ok,
    lowerIds rows = (rows', ok) →
    length rows' = length rows
    ∧ ∀ i row row', rows !! i = Some row → rows' !! i = Some row' →
        ∀ name, name ≠ "id" → field row' name = field row name.
Proof.
  induction rows as [|r rows IH]; intros rows' ok; cbn [lowerIds].
  - intros [= <- <-]. split; [done|]. intros i row row' Hi. done.
  - destruct (field r "id") eqn:Hid;
      try (intros [= <- <-]; split; [done|];
           intros i row row' Hi Hi' name _; congruence).
    destruct (lowerIds rows) as [rest okr] eqn:Hrest.
    intros [= <- <-]. destruct (IH rest okr eq_refl) as [Hlen Hfr].
    split; [cbn; by rewrite Hlen|].
    intros [|i] row row' Hi Hi' name Hname; cbn in Hi, Hi'.
    + injection Hi as <-. injection Hi' as <-. unfold field.
      by rewrite lookup_insert_ne.
    + by eapply Hfr.
Qed.

(** Validating a file leaves [db] as it is, and the rows of the other
    tables; the rows of a table other than channels too. *)
Lemma validateFile_frame (filename : string) (st st' : State)
    (r : Halt + list ValidationError) :
  validateFile c filename st = (r, st') →
  st_db st' = st_db st
  ∧ (∀ other, other ≠ filename →
       st_files st' !! other = st_files st !! other)
  ∧ (filename ≠ "channels" → st_files st' = st_files st).
Proof.
  rewrite validateFile_eq.
  destruct (st_files st !! filename) as [rows|] eqn:Hrows.
  2: { intros [= <- <-]. done. }
  destruct (referential (st_db st) filename rows) as [rows' fe] eqn:Href.
  assert (Hst : ∀ st0,
    st0 = {| st_db := st_db st;
             st_files := <[filename := rows']> (st_files st);
             st_log := st_log st |} →
    st_db st0 = st_db st
    ∧ (∀ other, other ≠ filename →
         st_files st0 !! other = st_files st !! other)
    ∧ (filename ≠ "channels" → st_files st0 = st_files st)).
  { intros st0 ->. cbn. split; [done|]. split.
    - intros other Hne. by rewrite lookup_insert_ne.
    - intros Hne. unfold referential in Href.
      destruct (String.eqb_spec filename "channels"); [done|].
      assert (rows' = rows) as -> by (repeat case_match; congruence).
      by apply insert_id. }
  destruct fe; intros [= <- <-]; by apply Hst.
Qed.

End Frame.

Section Categories.

Context (c : Core).

(** When the detector does not throw, every row had a string for [id]
    and now has it in lower case. *)
Lemma lowerIds_ok (rows : list Row) :
  ∀ rows',
    lowerIds rows = (rows', true) →
    ∀ i row, rows !! i = Some row →
      ∃ id, field row "id" = VStr id
            ∧ rows' !! i = Some (<["id" := VStr (JS.toLowerCase id)]> row).
Proof.
  induction rows as [|r rows IH]; intros rows'; cbn [lowerIds].
  - intros _ i row Hi. done.
  - destruct (field r "id") eqn:Hid; try (intros [= _ ?]; done).
    destruct (lowerIds rows) as [rest ok] eqn:Hrest.
    intros [= <- ->] [|i] row Hi; cbn in Hi.
    + injection Hi as <-. by eexists.
    + by apply (IH rest eq_refl).
Qed.

(** The categories rule: one error for every category that the index
    has no property for, citing the [id] the row has when the rule
    runs. *)
Lemma validateChannelCategories_spec (db : Db) (index : Index) (row : Row)
    (i : nat) (categories : list string) :
  db !! "categories" = Some index →
  field row "categories" = VList categories →
  validateChannelCategories db row i
  = Some (flat_map (fun category =>
            if has_property index category then []
            else
              [ {| line := i + 2;
                   message := quoted (toString (field row "id")) +:+
                              " has the wrong category " +:+
                              quoted category |} ]) categories).
Proof.
  intros Hdb Hcat. unfold validateChannelCategories. rewrite Hcat.
  unfold forEachOf, forEach.
  rewrite (forEntries_push
             (fun category => missing db "categories" (VStr category))
             (fun category =>
                {| line := i + 2;
                   message := quoted (toString (field row "id")) +:+
                              " has the wrong category " +:+
                              quoted category |})).
  - cbn [app]. f_equal. apply flat_map_ext. intros category.
    unfold missing. rewrite Hdb. cbn [toString].
    by destruct (has_property index category).
  - intros category _. unfold missing. rewrite Hdb. by eexists.
Qed.

(** A channels row with a category that the categories lack (and that
    is no inherited name): when the file is validated, the error of the
    row is among the errors of the file, at the line of the row, and it
    cites the id of the row in lower case. *)
Lemma wrong_category_reported (st st' : State)
    (fileErrors : list ValidationError) (rows : list Row) (i : nat)
    (row : Row) (id : string) (index : Index) (categories : list string)
    (category : string) :
  validateFile c "channels" st = (inr fileErrors, st') →
  st_files st !! "channels" = Some rows →
  rows !! i = Some row →
  field row "id" = VStr id →
  field row "categories" = VList categories →
  category ∈ categories →
  st_db st !! "categories" = Some index →
  has_property index category = false →
  {| line := i + 2;
     message := quoted (JS.toLowerCase id) +:+ " has the wrong category "
                +:+ quoted category |} ∈ fileErrors.
Proof.
  intros Hval Hrows Hi Hid Hcats Hin Hdb Hmiss.
  rewrite validateFile_eq, Hrows in Hval.
  destruct (referential (st_db st) "channels" rows) as [rows' [fe|]] eqn:Href;
    [|done].
  injection Hval as <- _.
  apply referential_spec in Href as (dups & per & Hdup & _ & Hper & ->).
  change (String.eqb "channels" "channels") with true in Hdup.
  cbn match in Hdup.
  assert (Hrow' : rows' !! i
                  = Some (<["id" := VStr (JS.toLowerCase id)]> row)).
  { unfold findDuplicatesById in Hdup.
    destruct (lowerIds rows) as [rows1 []] eqn:Hlow;
      injection Hdup as <- ?; [|done].
    destruct (lowerIds_ok rows rows1 Hlow i row Hi) as (id' & Hid' & ->).
    rewrite Hid in Hid'. by injection Hid' as <-. }
  destruct (Hper i _ Hrow') as (es & Hes & Hrules).
  rewrite schemaLoop_spec.
  apply elem_of_app. left. apply elem_of_app. right.
  apply list_elem_of_In, in_concat. exists es. split.
  { apply list_elem_of_In. by eapply list_elem_of_lookup_2. }
  apply list_elem_of_In.
  unfold rules_of in Hrules.
  change (String.eqb "channels" "channels") with true in Hrules.
  cbn match in Hrules.
  destruct (validateChannelBroadcastArea _ _ _) as [e1|]; [|done].
  destruct (validateChannelSubdivision _ _ _) as [e2|]; [|done].
  rewrite (validateChannelCategories_spec _ index _ _ categories) in Hrules;
    [|done|unfold field; by rewrite lookup_insert_ne].
  destruct (validateChannelReplacedBy _ _ _) as [e4|]; [|done].
  destruct (validateChannelLanguages _ _ _) as [e5|]; [|done].
  destruct (validateChannelCountry _ _ _) as [e6|]; [|done].
  cbn in Hrules. injection Hrules as <-.
  rewrite !elem_of_app. right. right. left.
  apply list_elem_of_In, in_flat_map. exists category.
  split; [by apply list_elem_of_In|].
  rewrite Hmiss. unfold field at 1. rewrite lookup_insert_eq. by left.
Qed.

End Categories.

(** C1 on the dataset: the channels row has the id [BBCOne.uk] and the
    category [xxx], which the categories lack. The error is at line 2
    and the exit status is 1, but the message cites the id in lower
    case: the duplicate detector has written it into the row before
    the categories are checked. *)
Lemma wrong_category_cites_lowered_id :
  let r := run (Demo.core []) ["data/channels.csv"] in
  (st_files Demo.loaded !! "channels" ≫= (.!! 0)) ≫= (.!! "id")
  = Some (VStr "BBCOne.uk")
  ∧ st_db Demo.loaded !! "categories" ≫= (.!! "xxx") = None
  ∧ st_log (snd r)
    = [ LogFile "data/channels.csv";
        LogLine 2 (quoted "bbcone.uk" +:+ " has the wrong category "
                   +:+ quoted "xxx");
        LogError "1 error(s)" ]
  ∧ exit_status r = Some 1.
Proof. repeat split; vm_compute; reflexivity. Qed.

(** C3 on three rows whose ids differ by case only: the detector
    reports the second row (line 3) and not the third one (line 4). *)
Lemma duplicates_after_the_first_are_lost :
  snd (findDuplicatesById Demo.triple)
  = Some [ {| line := 3;
              message := "entry with the id " +:+ quoted "bbcone.uk"
                         +:+ " already exists" |} ].
Proof. vm_compute. reflexivity. Qed.

(** C9 on the dataset: validating the channels changes the [id] of the
    row in [files]. *)
Lemma validation_writes_the_id :
  let st' := snd (validateFile (Demo.core []) "channels" Demo.loaded) in
  (st_files Demo.loaded !! "channels" ≫= (.!! 0)) ≫= (.!! "id")
  = Some (VStr "BBCOne.uk")
  ∧ (st_files st' !! "channels" ≫= (.!! 0)) ≫= (.!! "id")
    = Some (VStr "bbcone.uk").
Proof. split; vm_compute; reflexivity. Qed.


(** * Further properties *)

(** ** The indexes and the first phase *)

Section IndexInvariant.

Context (c : Core).

Lemma keyBy_go_lookup (key : string) (data : list Row) :
  ∀ (n : nat) (grouped : Index) (k : string) (i : nat),
    keyBy_go key n data grouped !! k = Some i
    ↔ (∃ j row, i = n + j ∧ data !! j = Some row
                ∧ toString (field row key) = k
                ∧ ∀ j' row', j < j' → data !! j' = Some row' →
                    toString (field row' key) ≠ k)
      ∨ (grouped !! k = Some i
         ∧ ∀ j row, data !! j = Some row → toString (field row key) ≠ k).
Proof.
  induction data as [|r rest IH]; intros n grouped k i; cbn [keyBy_go].
  - split.
    + intros H. right. split; [done|]. intros j row Hj. done.
    + intros [(j & row & _ & Hj & _)|[H _]]; done.
  - rewrite IH. split.
    + intros [(j & row & -> & Hj & Hk & Hlast)|[Hins Hnone]].
      * left. exists (S j), row. split; [lia|]. split; [done|].
        split; [done|]. intros [|j'] row' Hlt Hj'; [lia|].
        apply (Hlast j' row'); [lia|done].
      * destruct (decide (toString (field r key) = k)) as [Heq|Hne].
        -- rewrite Heq, lookup_insert_eq in Hins. injection Hins as <-.
           left. exists 0, r. split; [lia|]. split; [done|].
           split; [done|]. intros [|j'] row' Hlt Hj'; [lia|].
           by apply (Hnone j' row').
        -- rewrite lookup_insert_ne in Hins by done. right.
           split; [done|]. intros [|j] row Hj.
           ++ injection Hj as <-. done.
           ++ by apply (Hnone j row).
    + intros [(j & row & -> & Hj & Hk & Hlast)|[Hg Hnone]].
      * destruct j as [|j].
        -- injection Hj as <-. right. split.
           ++ rewrite Hk, lookup_insert_eq. f_equal. lia.
           ++ intros j row' Hj'. apply (Hlast (S j) row'); [lia|done].
        -- left. exists j, row. split; [lia|]. split; [done|].
           split; [done|]. intros j' row' Hlt Hj'.
           apply (Hlast (S j') row'); [lia|done].
      * right. split.
        -- rewrite lookup_insert_ne; [done|]. by apply (Hnone 0 r).
        -- intros j row Hj. by apply (Hnone (S j) row).
Qed.

(** A file that is loaded keeps the invariant and the tables there. *)
Lemma loadFile_keeps (filepath : string) (st st' : State) :
  JS.endsWith filepath ".csv" = true →
  loadFile c filepath tt st = (inr tt, st') →
  db_indexes_files st →
  db_indexes_files st'
  ∧ st_log st' = st_log st
  ∧ is_Some (st_files st' !! file_getFilename c filepath)
  ∧ ∀ filename, is_Some (st_files st !! filename) →
      is_Some (st_files st' !! filename).
Proof.
  intros Hcsv Hload Hinv.
  apply loadFile_ok in Hload as (data & _ & ->); [|done].
  cbn [st_db st_files st_log]. split; [|split; [done|split]].
  - intros filename. cbn [st_db st_files].
    destruct (decide (file_getFilename c filepath = filename)) as [<-|Hne].
    + by rewrite !lookup_insert_eq.
    + by rewrite !lookup_insert_ne.
  - by rewrite lookup_insert_eq.
  - intros filename Hsome.
    destruct (decide (file_getFilename c filepath = filename)) as [<-|Hne].
    + by rewrite lookup_insert_eq.
    + by rewrite lookup_insert_ne.
Qed.

Lemma forOf_loadFile_keeps (fs : list string) :
  Forall (fun filepath => JS.endsWith filepath ".csv" = true) fs →
  ∀ st st',
    forOf (loadFile c) fs tt st = (inr tt, st') →
    db_indexes_files st →
    db_indexes_files st'
    ∧ st_log st' = st_log st
    ∧ (∀ filepath, filepath ∈ fs →
         is_Some (st_files st' !! file_getFilename c filepath))
    ∧ ∀ filename, is_Some (st_files st !! filename) →
        is_Some (st_files st' !! filename).
Proof.
  induction 1 as [|f fs Hf Hfs IH]; intros st st' Hrun Hinv;
    cbn [forOf] in Hrun.
  - injection Hrun as <-. repeat split; try done.
    intros filepath Hin. by apply not_elem_of_nil in Hin.
  - apply bind_inv_inr in Hrun as ([] & st1 & Hload & Hrest).
    destruct (loadFile_keeps f st st1 Hf Hload Hinv)
      as (Hinv1 & Hlog1 & Hsome1 & Hmono1).
    destruct (IH st1 st' Hrest Hinv1) as (Hinv' & Hlog' & Hsome' & Hmono').
    split; [done|]. split; [congruence|]. split.
    + intros filepath [->|Hin]%elem_of_cons; [by apply Hmono'|by apply Hsome'].
    + intros filename Hsome. by apply Hmono', Hmono1.
Qed.

Lemma allFiles_all_csv :
  Forall (fun filepath => JS.endsWith filepath ".csv" = true) allFiles.
Proof. apply Forall_forall. intros filepath. apply allFiles_csv. Qed.

(** A file without format violation is loaded. *)
Lemma loadFile_no_violation (filepath : string) (st : State) :
  JS.endsWith filepath ".csv" = true →
  ¬ format_violation c filepath →
  ∃ st', loadFile c filepath tt st = (inr tt, st').
Proof.
  intros Hcsv Hok. unfold format_violation in Hok.
  destruct (loadFile_cases c filepath st) as [[msg Hf]|(st' & Hf & _)];
    [|by exists st'].
  exfalso. apply Hok. clear Hok. revert Hf. unfold loadFile.
  rewrite Hcsv. cbn [negb].
  destruct (String.eqb_spec (file_eol c filepath) "CRLF") as [Heol|Heol];
    cbn [negb]; [|by left].
  destruct (JS.ends_with_space (file_read c filepath)) eqn:Hsp;
    [by right; left|].
  destruct (wrong_columns _ 0 _) as [i|] eqn:Hcols.
  { intros _. right. right. left.
    destruct (decide (Forall (fun ln => columns ln = header_count c filepath)
                             (lines_of c filepath))) as [Hall|Hnot].
    - apply wrong_columns_None with (i := 0) in Hall.
      unfold header_count, lines_of in Hall. congruence.
    - apply not_Forall_Exists in Hnot; [|apply _].
      apply Exists_exists in Hnot as (ln & Hin & Hne). by exists ln. }
  destruct (csv_fromString c (file_read c filepath)) as [err|data] eqn:Hp.
  { intros _. do 3 right. by exists err. }
  done.
Qed.

End IndexInvariant.

(** X1. An index maps a key to the position of the last row that has
    it: the row at that position has the key, and no later row has. A
    key that two rows share leads to the later one. *)
Theorem keyBy_last_wins (data : list Row) (key k : string) (i : nat) :
  keyBy data key !! k = Some i
  ↔ (∃ row, data !! i = Some row ∧ toString (field row key) = k)
    ∧ ∀ j row', i < j → data !! j = Some row' →
        toString (field row' key) ≠ k.
Proof.
  unfold keyBy. rewrite keyBy_go_lookup. split.
  - intros [(j & row & -> & Hj & Hk & Hlast)|[H _]]; [|done].
    split; [by exists row|done].
  - intros [(row & Hi & Hk) Hlast]. left. by exists i, row.
Qed.

Section Parsed.

Context (c : Core).

(** Where the rows of [files] come from: a table that the first loop
    stores holds what the parser returns for the text of a file of the
    loop with that table name. *)
Lemma forOf_loadFile_parsed (fs : list string) :
  Forall (fun filepath => JS.endsWith filepath ".csv" = true) fs →
  ∀ st st',
    forOf (loadFile c) fs tt st = (inr tt, st') →
    ∀ filename data,
      st_files st' !! filename = Some data →
      st_files st !! filename = Some data
      ∨ ∃ filepath, filepath ∈ fs
          ∧ file_getFilename c filepath = filename
          ∧ csv_fromString c (file_read c filepath) = inr data.
Proof.
  induction 1 as [|f fs Hf Hfs IH]; intros st st' Hrun filename data Hdata;
    cbn [forOf] in Hrun.
  - injection Hrun as <-. by left.
  - apply bind_inv_inr in Hrun as ([] & st1 & Hload & Hrest).
    destruct (IH st1 st' Hrest filename data Hdata)
      as [Hst1|(filepath & Hin & Hname & Hparse)].
    + apply loadFile_ok in Hload as (data1 & Hparse1 & ->); [|done].
      cbn [st_files] in Hst1.
      destruct (decide (file_getFilename c f = filename)) as [Heq|Hne].
      * rewrite Heq, lookup_insert_eq in Hst1. injection Hst1 as ->.
        right. exists f. split; [by left|done].
      * rewrite lookup_insert_ne in Hst1 by done. by left.
    + right. exists filepath. split; [by right|done].
Qed.

End Parsed.

(** X2. When the first phase ends without a fatal error, nothing has
    been printed; every table of [files] holds the rows that the parser
    returns for the text of a known file with that table name, and [db]
    holds for every table of [files] the index of just these rows under
    the key field of the table; every known file has its table, which
    holds the parsed rows of that very file when no other known file
    has the same table name. *)
Theorem phase1_indexes_files (c : Core) (st : State) :
  phase1 c initial = (inr tt, st) →
  st_log st = []
  ∧ db_indexes_files st
  ∧ (∀ filename data,
       st_files st !! filename = Some data →
       ∃ filepath, filepath ∈ allFiles
         ∧ file_getFilename c filepath = filename
         ∧ csv_fromString c (file_read c filepath) = inr data)
  ∧ ∀ filepath, filepath ∈ allFiles →
      ∃ data, st_files st !! file_getFilename c filepath = Some data
              ∧ st_db st !! file_getFilename c filepath
                = Some (keyBy data
                          (key_field (file_getFilename c filepath)))
              ∧ ((∀ other, other ∈ allFiles →
                    file_getFilename c other = file_getFilename c filepath →
                    other = filepath) →
                 csv_fromString c (file_read c filepath) = inr data).
Proof.
  intros Hrun.
  destruct (forOf_loadFile_keeps c allFiles allFiles_all_csv initial st Hrun)
    as (Hinv & Hlog & Hsome & _).
  { intros filename. cbn. by rewrite !lookup_empty. }
  assert (Hparsed : ∀ filename data,
    st_files st !! filename = Some data →
    ∃ filepath, filepath ∈ allFiles
      ∧ file_getFilename c filepath = filename
      ∧ csv_fromString c (file_read c filepath) = inr data).
  { intros filename data Hdata.
    destruct (forOf_loadFile_parsed c allFiles allFiles_all_csv initial st
                Hrun filename data Hdata) as [Hinit|H]; [|done].
    cbn in Hinit. by rewrite lookup_empty in Hinit. }
  split; [done|]. split; [done|]. split; [done|].
  intros filepath Hin. destruct (Hsome filepath Hin) as [data Hdata].
  exists data. split; [done|]. split; [by rewrite Hinv, Hdata|].
  intros Honly.
  destruct (Hparsed _ data Hdata) as (other & Hother & Hname & Hparse).
  by rewrite <- (Honly other Hother Hname).
Qed.

(** The dataset: the table of the channels holds the parsed rows of
    the channels file. *)
Lemma phase1_indexes_files_witness :
  let c := Demo.core [] in
  (st_log Demo.loaded = []
   ∧ db_indexes_files Demo.loaded
   ∧ (∀ filename data,
        st_files Demo.loaded !! filename = Some data →
        ∃ filepath, filepath ∈ allFiles
          ∧ file_getFilename c filepath = filename
          ∧ csv_fromString c (file_read c filepath) = inr data)
   ∧ ∀ filepath, filepath ∈ allFiles →
       ∃ data, st_files Demo.loaded !! file_getFilename c filepath = Some data
               ∧ st_db Demo.loaded !! file_getFilename c filepath
                 = Some (keyBy data
                           (key_field (file_getFilename c filepath)))
               ∧ ((∀ other, other ∈ allFiles →
                     file_getFilename c other = file_getFilename c filepath →
                     other = filepath) →
                  csv_fromString c (file_read c filepath) = inr data))
  ∧ st_files Demo.loaded !! "channels" = Some Demo.channels_rows
  ∧ csv_fromString c (file_read c "data/channels.csv")
    = inr Demo.channels_rows.
Proof.
  intros c. split; [|split; vm_compute; reflexivity].
  apply (phase1_indexes_files (Demo.core []) Demo.loaded).
  vm_compute. reflexivity.
Defined.

(** X3. The first phase ends without a fatal error exactly when none
    of the known files has a format violation. *)
Theorem phase1_succeeds_iff (c : Core) :
  fst (phase1 c initial) = inr tt
  ↔ ∀ filepath, filepath ∈ allFiles → ¬ format_violation c filepath.
Proof.
  split.
  - intros Hok filepath Hin Hv.
    destruct (run_fatal c [] filepath Hin) as (msg & st & _ & _ & Hp1).
    { intros st. apply loadFile_violation; [by apply allFiles_csv|done]. }
    rewrite Hp1 in Hok. done.
  - intros Hall. unfold phase1.
    assert (Hgen : ∀ fs st,
      (∀ filepath, filepath ∈ fs → filepath ∈ allFiles) →
      fst (forOf (loadFile c) fs tt st) = inr tt).
    { induction fs as [|f fs IH]; intros st Hsub; [done|].
      cbn [forOf].
      destruct (loadFile_no_violation c f st) as [st' Hload].
      - apply allFiles_csv, Hsub. by left.
      - apply Hall, Hsub. by left.
      - rewrite (bind_inr _ _ _ _ _ Hload). apply IH.
        intros filepath Hin. apply Hsub. by right. }
    by apply Hgen.
Qed.

(** ** The column check *)

Section Columns.

Context (c : Core).

Lemma wrong_columns_first (n : nat) (rows : list string) :
  ∀ (k i : nat) (ln : string),
    rows !! i = Some ln →
    columns ln ≠ n →
    (∀ j l, j < i → rows !! j = Some l → columns l = n) →
    wrong_columns n k rows = Some (k + i).
Proof.
  induction rows as [|r rows IH]; intros k i ln Hi Hne Hbefore; [done|].
  cbn [wrong_columns]. destruct i as [|i].
  - injection Hi as ->. apply Nat.eqb_neq in Hne. rewrite Hne. cbn.
    f_equal. lia.
  - rewrite (Hbefore 0 r) by (done || lia). rewrite Nat.eqb_refl. cbn [negb].
    rewrite (IH (S k) i ln); [f_equal; lia|done|done|].
    intros j l Hlt Hj. apply (Hbefore (S j) l); [lia|done].
Qed.

Lemma split_char_go_length (sep : ascii) (s : string) :
  ∀ cur, length (JS.split_char_go sep s cur) = S (count_char sep s).
Proof.
  induction s as [|a s IH]; intros cur; [done|].
  cbn [JS.split_char_go count_char].
  destruct (Ascii.eqb a sep); cbn [length]; by rewrite IH.
Qed.

Lemma split_crlf_go_cons (s : string) :
  ∀ cur, ∃ first rest, JS.split_crlf_go s cur = first :: rest.
Proof.
  assert (Hlen : ∀ n s, String.length s ≤ n →
    ∀ cur, ∃ first rest, JS.split_crlf_go s cur = first :: rest).
  { clear s. induction n as [|n IH]; intros s Hn cur.
    - destruct s; [by eexists _, _|cbn in Hn; lia].
    - destruct s as [|a s]; [by eexists _, _|].
      cbn [JS.split_crlf_go]. destruct s as [|b s].
      + by eexists _, _.
      + destruct (Ascii.eqb a JS.CR && Ascii.eqb b JS.LF);
          [by eexists _, _|].
        apply IH. cbn in *. lia. }
  by apply (Hlen (String.length s)).
Qed.

(** The checks of a file up to the column check. *)
Lemma loadFile_columns (filepath : string) (st : State) (i : nat) :
  JS.endsWith filepath ".csv" = true →
  file_eol c filepath = "CRLF" →
  JS.ends_with_space (file_read c filepath) = false →
  wrong_columns (header_count c filepath) 0 (lines_of c filepath) = Some i →
  loadFile c filepath tt st = handleError (msg_columns i filepath) st.
Proof.
  intros Hcsv Heol Hsp Hcols. unfold loadFile.
  rewrite Hcsv, Heol, Hsp. cbn [negb String.eqb].
  change (String.eqb "CRLF" "CRLF") with true. cbn [negb].
  unfold header_count, lines_of in Hcols. by rewrite Hcols.
Qed.

End Columns.

(** X4. The column check reports the first line that has not as many
    columns as the header, by its number counted from 1: a file with
    CRLF line endings and no white space at its end, whose line at
    position [i] is the first with a wrong number of columns, stops the
    run with the message of row [i + 1]. *)
Theorem first_wrong_row_reported (c : Core) (filepath : string) (st : State)
    (i : nat) (ln : string) :
  JS.endsWith filepath ".csv" = true →
  file_eol c filepath = "CRLF" →
  JS.ends_with_space (file_read c filepath) = false →
  lines_of c filepath !! i = Some ln →
  columns ln ≠ header_count c filepath →
  (∀ j l, j < i → lines_of c filepath !! j = Some l →
          columns l = header_count c filepath) →
  loadFile c filepath tt st = handleError (msg_columns i filepath) st
  ∧ msg_columns i filepath
    = "Error: row " +:+ pretty (S i) +:+
      " has the wrong number of columns (" +:+ filepath +:+ ")".
Proof.
  intros Hcsv Heol Hsp Hi Hne Hbefore. split.
  - apply loadFile_columns; try done.
    by rewrite (wrong_columns_first _ _ 0 i ln Hi Hne Hbefore).
  - unfold msg_columns. by rewrite Nat.add_1_r.
Qed.

(** X5. The header is counted on every comma, the lines on the commas
    outside quotes: a file whose header has a comma between balanced
    quotes is rejected at row 1, whatever its rows are. *)
Theorem quoted_comma_in_header_is_fatal (c : Core) (filepath : string)
    (st : State) :
  let header := nth 0 (lines_of c filepath) EmptyString in
  JS.endsWith filepath ".csv" = true →
  file_eol c filepath = "CRLF" →
  JS.ends_with_space (file_read c filepath) = false →
  Nat.even (JS.count_quotes header) = true →
  commas_outside_quotes header < count_char ","%char header →
  loadFile c filepath tt st = handleError (msg_columns 0 filepath) st.
Proof.
  intros header Hcsv Heol Hsp Hbal Hquoted.
  apply loadFile_columns; try done.
  unfold header_count. fold header.
  destruct (split_crlf_go_cons (file_read c filepath) EmptyString)
    as (first & rest & Hlines).
  unfold lines_of, JS.split_crlf in *. subst header.
  unfold lines_of, JS.split_crlf. rewrite Hlines in *. cbn [nth] in *.
  cbn [wrong_columns].
  assert (Hcols : columns first = S (commas_outside_quotes first)).
  { unfold columns, JS.split_unquoted.
    rewrite (split_unquoted_go_outside first EmptyString false Hbal).
    apply split_outside_go_length. }
  unfold JS.split_char. rewrite split_char_go_length, Hcols.
  destruct (Nat.eqb_spec (S (commas_outside_quotes first))
              (S (count_char "," first))); [lia|done].
Qed.

Lemma first_wrong_row_reported_witness :
  loadFile Cases.short_line "data/languages.csv" tt initial
  = handleError (msg_columns 2 "data/languages.csv") initial
  ∧ msg_columns 2 "data/languages.csv"
    = "Error: row " +:+ pretty 3 +:+
      " has the wrong number of columns (" +:+ "data/languages.csv" +:+ ")".
Proof.
  apply (first_wrong_row_reported Cases.short_line "data/languages.csv"
           initial 2 "fra"); try (vm_compute; reflexivity).
  - vm_compute. discriminate.
  - intros [|[|j]] l Hlt Hj; [| |lia];
      vm_compute in Hj; injection Hj as <-; vm_compute; reflexivity.
Defined.

Lemma quoted_comma_in_header_is_fatal_witness :
  loadFile Cases.quoted_header "data/languages.csv" tt initial
  = handleError (msg_columns 0 "data/languages.csv") initial.
Proof.
  apply (quoted_comma_in_header_is_fatal Cases.quoted_header
           "data/languages.csv" initial); vm_compute; reflexivity.
Defined.

(** ** More on the duplicate detector *)

Section Detector.

Context (c : Core).

Lemma lower_char_idem (a : ascii) :
  JS.lower_char (JS.lower_char a) = JS.lower_char a.
Proof. by destruct a as [[] [] [] [] [] [] [] []]. Qed.

Lemma toLowerCase_idem (s : string) :
  JS.toLowerCase (JS.toLowerCase s) = JS.toLowerCase s.
Proof.
  induction s as [|a s IH]; [done|]. cbn. by rewrite lower_char_idem, IH.
Qed.

Lemma field_insert_eq (row : Row) (name : string) (v : Value) :
  field (<[name := v]> row) name = v.
Proof. unfold field. by rewrite lookup_insert_eq. Qed.

(** Lower-casing the ids again changes nothing. *)
Lemma lowerIds_idem (rows : list Row) :
  ∀ rows' ok, lowerIds rows = (rows', ok) → lowerIds rows' = (rows', ok).
Proof.
  induction rows as [|r rows IH]; intros rows' ok; cbn [lowerIds].
  - by intros [= <- <-].
  - destruct (field r "id") eqn:Hid;
      try (intros [= <- <-]; cbn [lowerIds]; by rewrite Hid).
    destruct (lowerIds rows) as [rest okr] eqn:Hrest.
    intros [= <- <-]. cbn [lowerIds].
    rewrite field_insert_eq, (IH rest okr eq_refl).
    by rewrite toLowerCase_idem, insert_insert_eq.
Qed.

Lemma findDuplicatesById_idem (rows rows' : list Row)
    (r : option (list ValidationError)) :
  findDuplicatesById rows = (rows', r) → findDuplicatesById rows' = (rows', r).
Proof.
  unfold findDuplicatesById.
  destruct (lowerIds rows) as [rows1 ok] eqn:Hlow.
  apply lowerIds_idem in Hlow.
  destruct ok; intros [= <- <-]; by rewrite Hlow.
Qed.

Lemma referential_idem (db : Db) (filename : string) (rows rows' : list Row)
    (r : option (list ValidationError)) :
  referential db filename rows = (rows', r) →
  referential db filename rows' = (rows', r).
Proof.
  unfold referential. destruct (String.eqb filename "channels").
  - destruct (findDuplicatesById rows) as [rows1 dups] eqn:Hdup.
    apply findDuplicatesById_idem in Hdup.
    intros [= <- <-]. by rewrite Hdup.
  - repeat case_match; by intros [= <- <-].
Qed.

(** The ids after the detector, and the rows that stop it. *)
Lemma lowerIds_ids (rows : list Row) :
  ∀ rows', lowerIds rows = (rows', true) →
    map (fun row => toString (field row "id")) rows' = map lowered_id rows
    ∧ ∀ row, row ∈ rows' → ∃ id, field row "id" = VStr id.
Proof.
  induction rows as [|r rows IH]; intros rows'; cbn [lowerIds].
  - intros [= <-]. split; [done|]. intros row Hin.
    by apply not_elem_of_nil in Hin.
  - destruct (field r "id") eqn:Hid; try (intros [= _ ?]; done).
    destruct (lowerIds rows) as [rest ok] eqn:Hrest.
    intros [= <- ->]. destruct (IH rest eq_refl) as [Hids Hstr].
    split.
    + cbn [map]. rewrite field_insert_eq, Hids. unfold lowered_id at 2.
      by rewrite Hid.
    + intros row [->|Hin]%elem_of_cons; [|by apply Hstr].
      rewrite field_insert_eq. by eexists.
Qed.

Lemma lowerIds_false (rows : list Row) :
  snd (lowerIds rows) = false
  ↔ ∃ row, row ∈ rows ∧ ∀ id, field row "id" ≠ VStr id.
Proof.
  induction rows as [|r rows IH]; cbn [lowerIds].
  - split; [done|]. intros (row & Hin & _). by apply not_elem_of_nil in Hin.
  - destruct (field r "id") eqn:Hid;
      try (split; [intros _; exists r; split; [by left|congruence] | done]).
    destruct (lowerIds rows) as [rest ok]. cbn [snd] in *. rewrite IH.
    split.
    + intros (row & Hin & Hrow). exists row. split; [by right|done].
    + intros (row & [->|Hin]%elem_of_cons & Hrow).
      * by destruct (Hrow s).
      * by exists row.
Qed.

(** The rule finds no duplicate exactly when the ids, all strings, are
    pairwise different. *)
Lemma unique_go_ids (value : list Row) :
  let idstr (row : Row) := toString (field row "id") in
  ∀ (seen : list Row) (i : nat),
    (∀ row, row ∈ seen ++ value → ∃ id, field row "id" = VStr id) →
    Joi.unique_go (fun a b => strict_eq (field a "id") (field b "id"))
                  seen i value = None
    ↔ NoDup (map idstr value)
      ∧ ∀ x s, x ∈ value → s ∈ seen → idstr s ≠ idstr x.
Proof.
  intros idstr. induction value as [|item value IH]; intros seen i Hstr;
    cbn [Joi.unique_go map].
  - split; [intros _|done]. split; [constructor|].
    intros x s Hx. by apply not_elem_of_nil in Hx.
  - assert (Hex : existsb (fun earlier =>
                    strict_eq (field earlier "id") (field item "id")) seen
                  = false
                  ↔ ∀ s, s ∈ seen → idstr s ≠ idstr item).
    { rewrite <- not_true_iff_false, existsb_exists. split.
      - intros Hno s Hs Heq. apply Hno. exists s.
        split; [by apply list_elem_of_In|].
        destruct (Hstr s) as [a Ha]; [apply elem_of_app; by left|].
        destruct (Hstr item) as [b Hb];
          [apply elem_of_app; right; by left|].
        unfold idstr in Heq. rewrite Ha, Hb in *. cbn in *.
        by apply String.eqb_eq.
      - intros Hall (s & Hs%list_elem_of_In & Heq).
        apply (Hall s Hs).
        destruct (Hstr s) as [a Ha]; [apply elem_of_app; by left|].
        destruct (Hstr item) as [b Hb];
          [apply elem_of_app; right; by left|].
        unfold idstr. rewrite Ha, Hb in *. cbn in *.
        by apply String.eqb_eq. }
    destruct (existsb _ seen) eqn:Hx.
    + split; [done|]. intros [_ Hall]. exfalso.
      assert (Hf : false = true → False) by done.
      destruct Hex as [_ Hex]. rewrite Hex in Hf; [done|].
      intros s Hs. apply Hall; [by left|done].
    + rewrite IH.
      2: { intros row Hin. apply Hstr. rewrite <- app_assoc in Hin.
           exact Hin. }
      destruct Hex as [Hex _]. specialize (Hex eq_refl).
      rewrite NoDup_cons. split.
      * intros [Hnd Hall]. split; [split; [|done]|].
        -- intros Hin. apply list_elem_of_fmap in Hin as (x & Heq & Hx').
           apply (Hall x item Hx'); [apply elem_of_app; right; by left|].
           done.
        -- intros x s [->|Hx']%elem_of_cons Hs; [by apply Hex|].
           apply Hall; [done|]. apply elem_of_app. by left.
      * intros [[Hnotin Hnd] Hall]. split; [done|].
        intros x s Hx' [Hs|Hs]%elem_of_app.
        -- apply Hall; [by right|done].
        -- apply list_elem_of_singleton in Hs as ->. intros Heq.
           apply Hnotin. apply list_elem_of_fmap. by exists x.
Qed.

End Detector.

(** X6. Validating a file a second time changes nothing and gives the
    same result: the ids that the duplicate detector has written are
    in lower case already. *)
Theorem validateFile_twice (c : Core) (filename : string) (st st' : State)
    (r : Halt + list ValidationError) :
  validateFile c filename st = (r, st') →
  validateFile c filename st' = (r, st').
Proof.
  rewrite !validateFile_eq.
  destruct (st_files st !! filename) as [rows|] eqn:Hrows.
  2: { intros [= <- <-]. by rewrite Hrows. }
  destruct (referential (st_db st) filename rows) as [rows' fe] eqn:Href.
  apply referential_idem in Href.
  destruct fe as [fe|]; intros [= <- <-]; cbn [st_files st_db st_log];
    rewrite lookup_insert_eq, Href, insert_insert_eq; done.
Qed.

Lemma validateFile_twice_witness :
  let st' := snd (validateFile (Demo.core []) "channels" Demo.loaded) in
  let r := fst (validateFile (Demo.core []) "channels" Demo.loaded) in
  validateFile (Demo.core []) "channels" st' = (r, st').
Proof.
  intros st' r.
  apply (validateFile_twice (Demo.core []) "channels" Demo.loaded st' r).
  vm_compute. reflexivity.
Defined.

(** X7. When the duplicate detector returns, it returns no error
    exactly when the ids of the rows are pairwise different once in
    lower case. *)
Theorem no_duplicate_error_iff (rows rows' : list Row)
    (errors : list ValidationError) :
  findDuplicatesById rows = (rows', Some errors) →
  errors = [] ↔ NoDup (map lowered_id rows).
Proof.
  unfold findDuplicatesById, Joi.unique_details.
  destruct (lowerIds rows) as [rows1 []] eqn:Hlow; intros [= <- <-].
  destruct (lowerIds_ids rows rows1 Hlow) as [Hids Hstr].
  rewrite <- Hids.
  pose proof (unique_go_ids rows1 [] 0) as Hgo. cbn zeta in Hgo.
  destruct (Joi.unique_go _ [] 0 rows1) as [d|].
  - split; [done|]. intros Hnd. exfalso.
    assert (Hnone : Some d = None); [|done].
    apply Hgo; [done|]. split; [done|].
    intros x s _ Hs. by apply not_elem_of_nil in Hs.
  - split; [intros _|done]. by apply Hgo.
Qed.

Lemma no_duplicate_error_iff_witness :
  ([ {| line := 3;
        message := "entry with the id " +:+ quoted "bbcone.uk"
                   +:+ " already exists" |} ] = []
   ↔ NoDup (map lowered_id Demo.triple)).
Proof.
  apply (no_duplicate_error_iff Demo.triple
           (fst (findDuplicatesById Demo.triple))).
  vm_compute. reflexivity.
Defined.

(** X8. The duplicate detector throws exactly when a row has an [id]
    that is not a string (a missing or empty nullable value): such a
    row has no [toLowerCase]. *)
Theorem findDuplicatesById_throws_iff (rows : list Row) :
  snd (findDuplicatesById rows) = None
  ↔ ∃ row, row ∈ rows ∧ ∀ id, field row "id" ≠ VStr id.
Proof.
  rewrite <- lowerIds_false. unfold findDuplicatesById.
  destruct (lowerIds rows) as [rows' []]; cbn; split; done.
Qed.

(** ** More on the reference rules *)

Section MoreRules.

Context (c : Core).

(** What a loop that pushes errors returns: what it started with, and
    errors made from elements of the list. *)
Lemma forEntries_push_elem (test : string → option bool)
    (mk : string → ValidationError) (xs : list string) :
  ∀ i errors result,
    forEntries (fun _ x errors =>
                  match test x with
                  | Some true => Some (push errors (mk x))
                  | Some false => Some errors
                  | None => None
                  end) i xs errors = Some result →
    ∀ e, e ∈ result → e ∈ errors ∨ ∃ x, x ∈ xs ∧ e = mk x.
Proof.
  induction xs as [|x xs IH]; intros i errors result; cbn [forEntries].
  - intros [= <-] e He. by left.
  - destruct (test x) as [[]|]; [| |done]; intros Hrun e He;
      destruct (IH _ _ _ Hrun e He) as [Hin|(y & Hy & ->)].
    + unfold push in Hin. apply elem_of_app in Hin as [Hin|Hin]; [by left|].
      apply list_elem_of_singleton in Hin as ->. right. exists x.
      split; [by left|done].
    + right. exists y. split; [by right|done].
    + by left.
    + right. exists y. split; [by right|done].
Qed.

Lemma forEachOf_push_lines (v : Value) (test : string → option bool)
    (mk : string → ValidationError) (n : nat)
    (result : list ValidationError) :
  (∀ x, line (mk x) = n) →
  forEachOf v (fun x errors =>
                 match test x with
                 | Some true => Some (push errors (mk x))
                 | Some false => Some errors
                 | None => None
                 end) [] = Some result →
  Forall (fun e => line e = n) result.
Proof.
  intros Hmk. unfold forEachOf, forEach. destruct v; try done.
  intros Hrun. apply Forall_forall. intros e He.
  destruct (forEntries_push_elem _ _ _ _ _ _ Hrun e He)
    as [Hin|(x & _ & ->)]; [by apply not_elem_of_nil in Hin|done].
Qed.

(** The errors of a rule on the row at position [i] have the line
    [i + 2]. *)
Ltac one_error_line :=
  intros; repeat case_match; simplify_eq; repeat constructor.

Lemma rules_of_lines (db : Db) (filename : string) (i : nat) (row : Row)
    (errors : list ValidationError) :
  rules_of db filename i row = Some errors →
  Forall (fun e => line e = i + 2) errors.
Proof.
  assert (Hlist : ∀ v test mk result,
    (∀ x, line (mk x) = i + 2) →
    forEachOf v (fun x errors =>
                   match test x with
                   | Some true => Some (push errors (mk x))
                   | Some false => Some errors
                   | None => None
                   end) [] = Some result →
    Forall (fun e => line e = i + 2) result)
    by (intros; by eapply forEachOf_push_lines).
  assert (Hcountry : ∀ es, validateChannelCountry db row i = Some es →
            Forall (fun e => line e = i + 2) es)
    by (unfold validateChannelCountry; one_error_line).
  assert (Hreplaced : ∀ es, validateChannelReplacedBy db row i = Some es →
            Forall (fun e => line e = i + 2) es)
    by (unfold validateChannelReplacedBy; one_error_line).
  assert (Hsub : ∀ es, validateChannelSubdivision db row i = Some es →
            Forall (fun e => line e = i + 2) es)
    by (unfold validateChannelSubdivision; one_error_line).
  unfold rules_of. repeat case_match.
  - destruct (validateChannelBroadcastArea db row i) as [e1|] eqn:H1; [|done].
    destruct (validateChannelSubdivision db row i) as [e2|] eqn:H2; [|done].
    destruct (validateChannelCategories db row i) as [e3|] eqn:H3; [|done].
    destruct (validateChannelReplacedBy db row i) as [e4|] eqn:H4; [|done].
    destruct (validateChannelLanguages db row i) as [e5|] eqn:H5; [|done].
    destruct (validateChannelCountry db row i) as [e6|] eqn:H6; [|done].
    cbn. intros [= <-]. rewrite !Forall_app.
    unfold validateChannelBroadcastArea in H1.
    unfold validateChannelCategories in H3.
    unfold validateChannelLanguages in H5.
    split; [eapply Hlist; [|exact H1]; done|].
    split; [by apply Hsub|].
    split; [eapply Hlist; [|exact H3]; done|].
    split; [by apply Hreplaced|].
    split; [eapply Hlist; [|exact H5]; done|].
    by apply Hcountry.
  - unfold validateChannelId. one_error_line.
  - unfold validateCountryLanguage. one_error_line.
  - unfold validateSubdivisionCountry. one_error_line.
  - unfold validateRegionCountries. intros Hrun.
    eapply Hlist; [|exact Hrun]; done.
  - intros [= <-]. constructor.
Qed.

(** The errors of a loop over a list field, as a filter. *)
Lemma missing_filter (index : Index) (mk : string → ValidationError)
    (xs : list string) :
  flat_map (fun x => match Some (negb (has_property index x)) with
                     | Some true => [mk x]
                     | _ => []
                     end) xs
  = map mk (filter (fun x => has_property index x = false) xs).
Proof.
  induction xs as [|x xs IH]; [done|].
  cbn [flat_map]. rewrite filter_cons, IH.
  destruct (decide (has_property index x = false)) as [H|H].
  - by rewrite H.
  - by destruct (has_property index x).
Qed.

Lemma list_rule_filter (db : Db) (table : string) (index : Index)
    (mk : string → ValidationError) (xs : list string) :
  db !! table = Some index →
  forEachOf (VList xs) (fun x errors =>
    match missing db table (VStr x) with
    | Some true => Some (push errors (mk x))
    | Some false => Some errors
    | None => None
    end) []
  = Some (map mk (filter (fun x => has_property index x = false) xs)).
Proof.
  intros Hdb. unfold forEachOf, forEach.
  rewrite (forEntries_push (fun x => missing db table (VStr x)) mk).
  - cbn [app]. f_equal. rewrite <- missing_filter.
    apply flat_map_ext. intros x. unfold missing. by rewrite Hdb.
  - intros x _. unfold missing. rewrite Hdb. by eexists.
Qed.

End MoreRules.

(** X9. Every error of a validated file points at a data row of the
    file: its line is [i + 2] for a position [i] below the number of
    rows (line 1 is the header). *)
Theorem file_errors_point_at_rows (c : Core) (filename : string)
    (st st' : State) (rows : list Row) (fileErrors : list ValidationError) :
  validateFile c filename st = (inr fileErrors, st') →
  st_files st !! filename = Some rows →
  ∀ e, e ∈ fileErrors → ∃ i, i < length rows ∧ line e = i + 2.
Proof.
  rewrite validateFile_eq. intros Hval Hrows. rewrite Hrows in Hval.
  destruct (referential (st_db st) filename rows) as [rows' [fe|]] eqn:Href;
    [|done].
  injection Hval as <- _.
  apply referential_spec in Href as (dups & per & Hdup & Hlen & Hper & ->).
  assert (Hrows' : length rows' = length rows
                   ∧ ∀ e, e ∈ dups → ∃ i, i < length rows ∧ line e = i + 2).
  { destruct (String.eqb filename "channels").
    - assert (Hl : length rows' = length rows).
      { unfold findDuplicatesById in Hdup.
        destruct (lowerIds rows) as [rows1 ok] eqn:Hlow.
        apply lowerIds_frame in Hlow as [Hl _].
        destruct ok; by injection Hdup as <- _. }
      split; [done|]. intros e He.
      destruct (findDuplicatesById_reports_first rows rows' dups Hdup)
        as [[-> _]|(k & row & -> & Hk & _)].
      + by apply not_elem_of_nil in He.
      + apply list_elem_of_singleton in He as ->. exists k.
        split; [|done]. rewrite <- Hl. by apply lookup_lt_Some in Hk.
    - destruct Hdup as [-> ->]. split; [done|]. intros e He.
      by apply not_elem_of_nil in He. }
  destruct Hrows' as [Hl Hdups]. rewrite schemaLoop_spec.
  intros e [[He|He]%elem_of_app|He]%elem_of_app.
  - by apply Hdups.
  - apply list_elem_of_In, in_concat in He as (es & Hes & He).
    apply list_elem_of_In, list_elem_of_lookup in Hes as [i Hi].
    assert (Hlt : i < length rows').
    { rewrite <- Hlen. by apply lookup_lt_Some in Hi. }
    destruct (lookup_lt_is_Some_2 rows' i Hlt) as [row Hrow].
    destruct (Hper i row Hrow) as (es' & Hes' & Hrules).
    rewrite Hi in Hes'. injection Hes' as <-.
    apply rules_of_lines in Hrules. rewrite Forall_forall in Hrules.
    exists i. split; [lia|]. by apply Hrules, list_elem_of_In.
  - apply list_elem_of_In, in_concat in He as (es & Hes & He).
    apply list_elem_of_In, list_elem_of_lookup in Hes as [i Hi].
    rewrite list_lookup_imap in Hi.
    destruct (rows' !! i) as [row|] eqn:Hrow; [|done].
    injection Hi as <-. unfold schema_errors in He.
    apply in_map_iff in He as (detail & <- & _).
    exists i. split; [|done]. rewrite <- Hl. by apply lookup_lt_Some in Hrow.
Qed.

Lemma file_errors_point_at_rows_witness :
  let e := {| line := 2;
              message := quoted "bbcone.uk" +:+ " has the wrong category "
                         +:+ quoted "xxx" |} in
  ∃ i, i < length Demo.channels_rows ∧ line e = i + 2.
Proof.
  intros e.
  apply (file_errors_point_at_rows (Demo.core []) "channels" Demo.loaded
           (snd (validateFile (Demo.core []) "channels" Demo.loaded))
           Demo.channels_rows [e]).
  - vm_compute. reflexivity.
  - vm_compute. reflexivity.
  - apply list_elem_of_singleton. reflexivity.
Defined.

(** X10. The rule of the regions gives one error for every element of
    [countries] that the countries index has no property for (an
    element that is neither a key of the index nor the name of an
    inherited property), in the order of the list and as often as the
    element is listed; so it gives none exactly when the index has a
    property for every element. *)
Theorem region_countries_errors (db : Db) (index : Index) (row : Row)
    (i : nat) (countries : list string) :
  db !! "countries" = Some index →
  field row "countries" = VList countries →
  validateRegionCountries db row i
  = Some (map (fun country =>
                 {| line := i + 2;
                    message := quoted (toString (field row "code")) +:+
                               " has the wrong country " +:+ quoted country |})
              (filter (fun country => has_property index country = false)
                      countries))
  ∧ (validateRegionCountries db row i = Some []
     ↔ ∀ country, country ∈ countries →
         has_property index country = true).
Proof.
  intros Hdb Hlist. unfold validateRegionCountries. rewrite Hlist.
  rewrite (list_rule_filter db "countries" index) by done.
  split; [done|]. split.
  - intros [= Hnil]. apply map_eq_nil in Hnil. intros country Hin.
    destruct (has_property index country) eqn:E; [done|].
    exfalso. by eapply (filter_nil_not_elem_of
                          (fun country => has_property index country = false)).
  - intros Hall.
    assert (Hnil : filter (fun country => has_property index country = false)
                          countries = []); [|by rewrite Hnil].
    clear Hlist. induction countries as [|x xs IH]; [done|].
    rewrite filter_cons.
    destruct (decide (has_property index x = false)) as [Hx|_].
    + rewrite Hall in Hx; [done|by left].
    + apply IH. intros country Hin. apply Hall. by right.
Qed.

(** A region with a known country, an unknown one listed twice, and an
    element that names an inherited property. *)
Lemma region_countries_errors_witness :
  let index := keyBy Demo.countries_rows "code" in
  let countries := ["UK"; "ZZ"; "hasOwnProperty"; "ZZ"] in
  let mk := fun country =>
    {| line := 2;
       message := quoted "EUR" +:+ " has the wrong country "
                  +:+ quoted country |} in
  (validateRegionCountries (st_db Demo.loaded) Cases.region 0
   = Some (map mk (filter (fun country => has_property index country = false)
                          countries))
   ∧ (validateRegionCountries (st_db Demo.loaded) Cases.region 0 = Some []
      ↔ ∀ country, country ∈ countries →
          has_property index country = true))
  ∧ filter (fun country => has_property index country = false) countries
    = ["ZZ"; "ZZ"].
Proof.
  intros index countries mk. split; [|vm_compute; reflexivity].
  apply (region_countries_errors (st_db Demo.loaded) index Cases.region 0
           countries); vm_compute; reflexivity.
Defined.

Lemma filter_missing_nil (index : Index) (xs : list string) :
  filter (fun x => has_property index x = false) xs = []
  ↔ ∀ x, x ∈ xs → has_property index x = true.
Proof.
  induction xs as [|x xs IH]; [split; [intros _ y Hy|]; set_solver|].
  rewrite filter_cons.
  destruct (decide (has_property index x = false)) as [Hx|Hx].
  - split; [done|]. intros Hall. rewrite Hall in Hx; [done|by left].
  - rewrite IH. split.
    + intros Hall y [->|Hy]%elem_of_cons; [|by apply Hall].
      by destruct (has_property index x).
    + intros Hall y Hy. apply Hall. by right.
Qed.

(** X11. The same for the languages of a channel: one error for every
    element of [languages] that the languages index has no property for
    (neither a key nor the name of an inherited property), citing the
    id of the row; none exactly when the index has a property for every
    element. *)
Theorem channel_languages_errors (db : Db) (index : Index) (row : Row)
    (i : nat) (languages : list string) :
  db !! "languages" = Some index →
  field row "languages" = VList languages →
  validateChannelLanguages db row i
  = Some (map (fun language =>
                 {| line := i + 2;
                    message := quoted (toString (field row "id")) +:+
                               " has the wrong language " +:+ quoted language |})
              (filter (fun language => has_property index language = false)
                      languages))
  ∧ (validateChannelLanguages db row i = Some []
     ↔ ∀ language, language ∈ languages →
         has_property index language = true).
Proof.
  intros Hdb Hlist. unfold validateChannelLanguages. rewrite Hlist.
  rewrite (list_rule_filter db "languages" index) by done.
  split; [done|]. rewrite <- filter_missing_nil. split.
  - intros [= Hnil]. by apply map_eq_nil in Hnil.
  - by intros ->.
Qed.

(** A channel with a known language, an unknown one, and one that names
    an inherited property. *)
Lemma channel_languages_errors_witness :
  let index := keyBy Demo.languages_rows "code" in
  let languages := ["eng"; "zzz"; "constructor"] in
  let row := Cases.polyglot in
  (validateChannelLanguages (st_db Demo.loaded) row 0
   = Some (map (fun language =>
                  {| line := 2;
                     message := quoted (toString (field row "id")) +:+
                                " has the wrong language " +:+ quoted language |})
               (filter (fun language => has_property index language = false)
                       languages))
   ∧ (validateChannelLanguages (st_db Demo.loaded) row 0 = Some []
      ↔ ∀ language, language ∈ languages →
          has_property index language = true))
  ∧ validateChannelLanguages (st_db Demo.loaded) row 0
    = Some [ {| line := 2;
                message := quoted "One.uk" +:+ " has the wrong language "
                           +:+ quoted "zzz" |} ].
Proof.
  intros index languages row. split; [|vm_compute; reflexivity].
  apply (channel_languages_errors (st_db Demo.loaded) index row 0 languages);
    vm_compute; reflexivity.
Defined.

Section Throwing.

Lemma forEachOf_is_Some_list {St : Type} (v : Value)
    (body : string → St → option St) (s : St) :
  is_Some (forEachOf v body s) → ∃ l, v = VList l.
Proof. destruct v; cbn; try by intros [? ?]. by eexists. Qed.

Lemma one_lookup_is_Some (db : Db) (table : string) (index : Index)
    (key : Value) :
  db !! table = Some index → is_Some (missing db table key).
Proof. intros Hdb. unfold missing. rewrite Hdb. by eexists. Qed.

End Throwing.

(** X12. With the six tables that the rules of the channels read in
    [db], the rules of a channels row throw exactly when one of
    [broadcast_area], [categories] and [languages] is not a list:
    otherwise they return their errors. *)
Theorem channel_rules_return_iff (db : Db)
    (regions countries subdivisions categories channels languages : Index)
    (row : Row) (i : nat) :
  db !! "regions" = Some regions →
  db !! "countries" = Some countries →
  db !! "subdivisions" = Some subdivisions →
  db !! "categories" = Some categories →
  db !! "channels" = Some channels →
  db !! "languages" = Some languages →
  is_Some (rules_of db "channels" i row)
  ↔ (∃ l, field row "broadcast_area" = VList l)
    ∧ (∃ l, field row "categories" = VList l)
    ∧ (∃ l, field row "languages" = VList l).
Proof.
  intros Hr Hc Hs Hcat Hch Hl. unfold rules_of.
  change (String.eqb "channels" "channels") with true. cbn match.
  split.
  - intros Hsome.
    destruct (validateChannelBroadcastArea db row i) as [e1|] eqn:H1;
      [|by destruct Hsome].
    destruct (validateChannelSubdivision db row i) as [e2|];
      [|by destruct Hsome].
    destruct (validateChannelCategories db row i) as [e3|] eqn:H3;
      [|by destruct Hsome].
    destruct (validateChannelReplacedBy db row i) as [e4|];
      [|by destruct Hsome].
    destruct (validateChannelLanguages db row i) as [e5|] eqn:H5;
      [|by destruct Hsome].
    repeat split.
    + eapply forEachOf_is_Some_list. unfold validateChannelBroadcastArea in H1.
      by rewrite H1.
    + eapply forEachOf_is_Some_list. unfold validateChannelCategories in H3.
      by rewrite H3.
    + eapply forEachOf_is_Some_list. unfold validateChannelLanguages in H5.
      by rewrite H5.
  - intros ([areas Ha] & [cats Hcats] & [langs Hlangs]).
    assert (H1 : is_Some (validateChannelBroadcastArea db row i)).
    { unfold validateChannelBroadcastArea. rewrite Ha.
      unfold forEachOf, forEach.
      rewrite (forEntries_push
                 (fun area => wrong_area db (area_type area) (area_code area))
                 (fun area =>
                    {| line := i + 2;
                       message := quoted (toString (field row "id")) +:+
                                  " has the wrong broadcast_area " +:+
                                  quoted area |})); [by eexists|].
      intros area _. rewrite (wrong_area_spec _ _ _ _ _ _ Hr Hc Hs).
      by eexists. }
    assert (H2 : is_Some (validateChannelSubdivision db row i)).
    { unfold validateChannelSubdivision.
      destruct (one_lookup_is_Some db "subdivisions" _
                  (field row "subdivision") Hs) as [[] ->];
        destruct (truthy _); by eexists. }
    assert (H3 : is_Some (validateChannelCategories db row i)).
    { unfold validateChannelCategories. rewrite Hcats.
      rewrite (list_rule_filter db "categories" categories) by done.
      by eexists. }
    assert (H4 : is_Some (validateChannelReplacedBy db row i)).
    { unfold validateChannelReplacedBy.
      destruct (one_lookup_is_Some db "channels" _
                  (field row "replaced_by") Hch) as [[] ->];
        destruct (truthy _); by eexists. }
    assert (H5 : is_Some (validateChannelLanguages db row i)).
    { unfold validateChannelLanguages. rewrite Hlangs.
      rewrite (list_rule_filter db "languages" languages) by done.
      by eexists. }
    assert (H6 : is_Some (validateChannelCountry db row i)).
    { unfold validateChannelCountry.
      destruct (one_lookup_is_Some db "countries" _
                  (field row "country") Hc) as [[] ->]; by eexists. }
    destruct H1 as [? ->], H2 as [? ->], H3 as [? ->], H4 as [? ->],
      H5 as [? ->], H6 as [? ->]. by eexists.
Qed.

Lemma channel_rules_return_iff_witness :
  is_Some (rules_of (st_db Demo.loaded) "channels" 0 Cases.no_id)
  ↔ (∃ l, field Cases.no_id "broadcast_area" = VList l)
    ∧ (∃ l, field Cases.no_id "categories" = VList l)
    ∧ (∃ l, field Cases.no_id "languages" = VList l).
Proof.
  apply (channel_rules_return_iff (st_db Demo.loaded)
           (keyBy Demo.regions_rows "code")
           (keyBy Demo.countries_rows "code")
           (keyBy Demo.subdivisions_rows "code")
           (keyBy Demo.categories_rows "id")
           (keyBy Demo.channels_rows "id")
           (keyBy Demo.languages_rows "code")
           Cases.no_id 0); vm_compute; reflexivity.
Defined.

(** ** More on the run *)

Section MoreRun.

Context (c : Core).

Lemma report_log (fileErrors : list ValidationError) :
  ∀ st, report fileErrors st
        = (inr tt,
           {| st_db := st_db st; st_files := st_files st;
              st_log := st_log st
                        ++ map (fun e => LogLine (line e) (message e))
                               fileErrors |}).
Proof.
  induction fileErrors as [|err rest IH]; intros st; cbn [report map].
  - rewrite app_nil_r. by destruct st.
  - unfold mbind, M_bind, logger. rewrite IH. cbn [st_db st_files st_log].
    by rewrite <- app_assoc.
Qed.

Lemma validateFile_log (filename : string) (st st' : State)
    (r : Halt + list ValidationError) :
  validateFile c filename st = (r, st') → st_log st' = st_log st.
Proof.
  rewrite validateFile_eq. repeat case_match; by intros [= <- <-].
Qed.

(** The body of the second loop, case by case. *)
Lemma checkFile_cases (filepath : string)
    (globalErrors : list ValidationError) (st : State) :
  checkFile c filepath globalErrors st =
  if schemes_has c (file_getFilename c filepath) then
    match validateFile c (file_getFilename c filepath) st with
    | (inl h, st1) => (inl h, st1)
    | (inr [], st1) => (inr globalErrors, st1)
    | (inr fileErrors, st1) =>
        (inr (globalErrors ++ fileErrors),
         {| st_db := st_db st1; st_files := st_files st1;
            st_log := st_log st1
                      ++ LogFile filepath
                         :: map (fun e => LogLine (line e) (message e))
                                fileErrors |})
    end
  else handleError (msg_scheme (file_getFilename c filepath)) st.
Proof.
  unfold checkFile.
  destruct (schemes_has c (file_getFilename c filepath)); cbn [negb]; [|done].
  unfold mbind at 1. unfold M_bind.
  destruct (validateFile c (file_getFilename c filepath) st)
    as [[h|[|err rest]] st1]; try done.
  unfold mbind, M_bind, logger. rewrite report_log.
  cbn [st_db st_files st_log]. by rewrite <- app_assoc.
Qed.

Lemma printed_app (l1 l2 : list LogEntry) :
  printed (l1 ++ l2) = printed l1 ++ printed l2.
Proof.
  induction l1 as [|[] l1 IH]; cbn [printed app]; by rewrite ?IH.
Qed.

Lemma printed_lines (fileErrors : list ValidationError) :
  printed (map (fun e => LogLine (line e) (message e)) fileErrors)
  = fileErrors.
Proof.
  induction fileErrors as [|[] rest IH]; cbn [printed map]; by rewrite ?IH.
Qed.

(** The second loop when it ends: the errors it adds are the errors it
    prints; when it adds none it prints nothing. *)
Lemma forOf_checkFile_printed (fs : list string) :
  ∀ globalErrors globalErrors' st st',
    forOf (checkFile c) fs globalErrors st = (inr globalErrors', st') →
    ∃ added, globalErrors' = globalErrors ++ added
             ∧ printed (st_log st') = printed (st_log st) ++ added
             ∧ (added = [] → st_log st' = st_log st).
Proof.
  induction fs as [|f fs IH]; intros g g' st st' Hrun; cbn [forOf] in Hrun.
  - injection Hrun as <- <-. exists []. by rewrite !app_nil_r.
  - apply bind_inv_inr in Hrun as (g1 & st1 & Hf & Hrest).
    apply IH in Hrest as (added & -> & Hpr & Hsame).
    rewrite checkFile_cases in Hf.
    destruct (schemes_has c (file_getFilename c f)); [|done].
    destruct (validateFile c (file_getFilename c f) st)
      as [[h|es] st0] eqn:Hval; [done|].
    apply validateFile_log in Hval.
    destruct es as [|err rest]; injection Hf as <- <-.
    + exists added. rewrite Hpr, Hval. split; [done|]. split; [done|].
      intros Hnil. by rewrite Hsame.
    + exists ((err :: rest) ++ added). rewrite <- app_assoc.
      split; [done|]. split; [|by intros [=]].
      rewrite Hpr. cbn [st_log]. rewrite printed_app, Hval.
      cbn [printed map]. rewrite printed_lines, <- app_assoc.
      by destruct err.
Qed.

(** The first loop ends with the output as it was, or with the status
    1. *)
Lemma forOf_loadFile_result (fs : list string) :
  ∀ st, (∃ st', forOf (loadFile c) fs tt st = (inr tt, st')
                ∧ st_log st' = st_log st)
        ∨ ∃ st', forOf (loadFile c) fs tt st = (inl (ProcessExit 1), st').
Proof.
  induction fs as [|f fs IH]; intros st; cbn [forOf].
  - left. by exists st.
  - destruct (loadFile_cases c f st) as [[msg Hf]|(st1 & Hf & Hlog)].
    + right. eexists. by apply bind_inl.
    + rewrite (bind_inr _ _ _ _ _ Hf).
      destruct (IH st1) as [(st' & Hrun & Hlog')|[st' Hrun]].
      * left. exists st'. split; [done|congruence].
      * right. by exists st'.
Qed.

Lemma forOf_app {A B : Type} (body : A → B → M B) (xs ys : list A) :
  ∀ b st, forOf body (xs ++ ys) b st
          = (forOf body xs b ≫= forOf body ys) st.
Proof.
  induction xs as [|x xs IH]; intros b st; cbn [forOf app].
  - done.
  - unfold mbind, M_bind. destruct (body x b st) as [[h|b'] st1]; [done|].
    apply IH.
Qed.

End MoreRun.

Section Halting.

Context (c : Core).

Lemma validateFile_halt (filename : string) (st st' : State) (h : Halt) :
  validateFile c filename st = (inl h, st') → h = Uncaught.
Proof.
  rewrite validateFile_eq.
  destruct (st_files st !! filename) as [rows|]; [|by intros [= <- _]].
  destruct (referential (st_db st) filename rows) as [rows' [fe|]];
    [done|by intros [= <- _]].
Qed.

(** The second loop stops early by [handleError] or by an exception. *)
Lemma forOf_checkFile_halt (fs : list string) :
  ∀ globalErrors st st' h,
    forOf (checkFile c) fs globalErrors st = (inl h, st') →
    h = ProcessExit 1 ∨ h = Uncaught.
Proof.
  induction fs as [|f fs IH]; intros g st st' h; cbn [forOf]; [done|].
  unfold mbind, M_bind.
  destruct (checkFile c f g st) as [[h1|g1] st1] eqn:Hf.
  - intros [= <- <-]. rewrite checkFile_cases in Hf.
    destruct (schemes_has c (file_getFilename c f)).
    + destruct (validateFile c (file_getFilename c f) st)
        as [[h0|[|err rest]] st0] eqn:Hval; [|done|done].
      injection Hf as <- _. apply validateFile_halt in Hval. by right.
    + injection Hf as <- _. by left.
  - apply IH.
Qed.

End Halting.

(** X13. A run that ends with the status 0 has printed nothing. *)
Theorem success_is_silent (c : Core) (args : list string) :
  exit_status (run c args) = Some 0 → st_log (snd (run c args)) = [].
Proof.
  unfold run, main, phase1.
  destruct (forOf_loadFile_result c allFiles initial)
    as [(st1 & H1 & Hlog1)|[st1 H1]].
  2: { by rewrite (bind_inl _ _ _ _ _ H1). }
  rewrite (bind_inr _ _ _ _ _ H1).
  destruct (phase2 c args st1) as [[h|g] st2] eqn:H2.
  - rewrite (bind_inl _ _ _ _ _ H2).
    apply forOf_checkFile_halt in H2 as [->| ->]; done.
  - rewrite (bind_inr _ _ _ _ _ H2). destruct g as [|err rest]; [|done].
    intros _. apply forOf_checkFile_printed in H2 as (added & Hadd & _ & Hsame).
    cbn [snd mret M_ret]. rewrite Hsame, Hlog1; [done|].
    by destruct added.
Qed.

Lemma success_is_silent_witness :
  st_log (snd (run (Demo.core []) ["data/countries.csv"])) = [].
Proof.
  apply (success_is_silent (Demo.core []) ["data/countries.csv"]).
  vm_compute. reflexivity.
Defined.

(** X14. In a run without fatal error, the errors that are printed are
    the accumulated errors, each once and in their order; when there
    are some, the last thing printed is their number. *)
Theorem printed_errors_are_accumulated (c : Core) (args : list string)
    (st1 st2 : State) (globalErrors : list ValidationError) :
  phase1 c initial = (inr tt, st1) →
  phase2 c args st1 = (inr globalErrors, st2) →
  printed (st_log st2) = globalErrors
  ∧ st_log (snd (run c args))
    = match globalErrors with
      | [] => []
      | _ => st_log st2 ++ [LogError (msg_total globalErrors)]
      end.
Proof.
  intros H1 H2. unfold run, main.
  rewrite (bind_inr _ _ _ _ _ H1), (bind_inr _ _ _ _ _ H2).
  assert (Hlog1 : st_log st1 = []).
  { unfold phase1 in H1.
    destruct (forOf_loadFile_result c allFiles initial)
      as [(st & Hrun & Hlog)|[st Hrun]]; rewrite Hrun in H1; [|done].
    by injection H1 as <-. }
  apply forOf_checkFile_printed in H2 as (added & Hadd & Hpr & Hsame).
  rewrite Hlog1 in Hpr, Hsame. cbn in Hadd, Hpr. subst added. split; [done|].
  destruct globalErrors; [by apply Hsame|done].
Qed.

Lemma printed_errors_are_accumulated_witness :
  let c := Demo.core [] in
  let args := ["data/blocklist.csv"; "data/channels.csv"] in
  let st2 := snd (phase2 c args Demo.loaded) in
  let globalErrors :=
    [ {| line := 2;
         message := quoted "bbcone.uk" +:+ " is missing in the channels.csv" |};
      {| line := 2;
         message := quoted "bbcone.uk" +:+ " has the wrong category "
                    +:+ quoted "xxx" |} ] in
  printed (st_log st2) = globalErrors
  ∧ st_log (snd (run c args))
    = st_log st2 ++ [LogError (msg_total globalErrors)].
Proof.
  intros c args st2 globalErrors.
  apply (printed_errors_are_accumulated c args Demo.loaded st2 globalErrors);
    vm_compute; reflexivity.
Defined.

(** X15. A requested file whose table has no scheme stops the run with
    the status 1 and the message of the missing scheme, at the place of
    the file in the list: the files before it have been validated and
    their errors printed, and no number of errors follows. *)
Theorem missing_scheme_aborts (c : Core) (before after : list string)
    (filepath : string) (st1 st2 : State)
    (globalErrors : list ValidationError) :
  phase1 c initial = (inr tt, st1) →
  forOf (checkFile c) before [] st1 = (inr globalErrors, st2) →
  schemes_has c (file_getFilename c filepath) = false →
  run c (before ++ filepath :: after)
  = handleError (msg_scheme (file_getFilename c filepath)) st2
  ∧ exit_status (run c (before ++ filepath :: after)) = Some 1.
Proof.
  intros H1 H2 Hno.
  assert (Hrun : run c (before ++ filepath :: after)
                 = handleError (msg_scheme (file_getFilename c filepath)) st2).
  { unfold run, main. rewrite (bind_inr _ _ _ _ _ H1).
    apply bind_inl. unfold phase2.
    replace (match before ++ filepath :: after with
             | [] => allFiles
             | _ => before ++ filepath :: after
             end) with (before ++ filepath :: after) by (by destruct before).
    rewrite forOf_app, (bind_inr _ _ _ _ _ H2). cbn [forOf].
    apply bind_inl. by rewrite checkFile_cases, Hno. }
  by rewrite Hrun.
Qed.

Lemma missing_scheme_aborts_witness :
  let c := Cases.no_regions_scheme in
  let st2 := snd (forOf (checkFile c) ["data/channels.csv"] [] Demo.loaded) in
  run c (["data/channels.csv"] ++ "data/regions.csv" :: ["data/countries.csv"])
  = handleError (msg_scheme "regions") st2
  ∧ exit_status (run c (["data/channels.csv"] ++ "data/regions.csv"
                        :: ["data/countries.csv"])) = Some 1.
Proof.
  intros c st2.
  apply (missing_scheme_aborts c ["data/channels.csv"] ["data/countries.csv"]
           "data/regions.csv" Demo.loaded st2
           [ {| line := 2;
                message := quoted "bbcone.uk" +:+ " has the wrong category "
                           +:+ quoted "xxx" |} ]);
    vm_compute; reflexivity.
Defined.

(** X16. A requested file whose table has a scheme but was not loaded
    in the first phase ends the run with an uncaught exception: its
    rows are [undefined]. No status is set by the script. *)
Theorem unloaded_table_throws (c : Core) (before after : list string)
    (filepath : string) (st1 st2 : State)
    (globalErrors : list ValidationError) :
  phase1 c initial = (inr tt, st1) →
  forOf (checkFile c) before [] st1 = (inr globalErrors, st2) →
  schemes_has c (file_getFilename c filepath) = true →
  st_files st2 !! file_getFilename c filepath = None →
  run c (before ++ filepath :: after) = (inl Uncaught, st2)
  ∧ exit_status (run c (before ++ filepath :: after)) = None.
Proof.
  intros H1 H2 Hsch Hnone.
  assert (Hrun : run c (before ++ filepath :: after) = (inl Uncaught, st2)).
  { unfold run, main. rewrite (bind_inr _ _ _ _ _ H1).
    apply bind_inl. unfold phase2.
    replace (match before ++ filepath :: after with
             | [] => allFiles
             | _ => before ++ filepath :: after
             end) with (before ++ filepath :: after) by (by destruct before).
    rewrite forOf_app, (bind_inr _ _ _ _ _ H2). cbn [forOf].
    apply bind_inl. by rewrite checkFile_cases, Hsch, validateFile_eq, Hnone. }
  by rewrite Hrun.
Qed.

Lemma unloaded_table_throws_witness :
  run Cases.extra_scheme ([] ++ "data/extras.csv" :: [])
  = (inl Uncaught, Demo.loaded)
  ∧ exit_status (run Cases.extra_scheme ([] ++ "data/extras.csv" :: []))
    = None.
Proof.
  apply (unloaded_table_throws Cases.extra_scheme [] [] "data/extras.csv"
           Demo.loaded Demo.loaded []); vm_compute; reflexivity.
Defined.

Section Writes.

Context (c : Core).

Lemma same_but_ids_refl (rows : list Row) : same_but_ids rows rows.
Proof.
  split; [done|]. intros i row row' Hi Hi'. rewrite Hi in Hi'.
  injection Hi' as <-. split; [done|by left].
Qed.

Lemma same_but_ids_trans (rows1 rows2 rows3 : list Row) :
  same_but_ids rows1 rows2 → same_but_ids rows2 rows3 →
  same_but_ids rows1 rows3.
Proof.
  intros [Hl12 H12] [Hl23 H23]. split; [congruence|].
  intros i row1 row3 H1 H3.
  destruct (lookup_lt_is_Some_2 rows2 i) as [row2 H2].
  { rewrite Hl12. by apply lookup_lt_Some in H1. }
  destruct (H12 i row1 row2 H1 H2) as [Hf12 Hid12].
  destruct (H23 i row2 row3 H2 H3) as [Hf23 Hid23].
  split.
  - intros name Hname. by rewrite Hf23, Hf12.
  - destruct Hid23 as [Heq|(id2 & Hid2 & Hid3)].
    + rewrite Heq. exact Hid12.
    + destruct Hid12 as [Heq|(id1 & Hid1 & Hid2')].
      * right. exists id2. by rewrite <- Heq.
      * right. exists id1. split; [done|].
        rewrite Hid2 in Hid2'. injection Hid2' as ->.
        by rewrite Hid3, toLowerCase_idem.
Qed.

Lemma lowerIds_same_but_ids (rows : list Row) :
  ∀ rows' ok, lowerIds rows = (rows', ok) → same_but_ids rows rows'.
Proof.
  induction rows as [|r rows IH]; intros rows' ok; cbn [lowerIds].
  - intros [= <- <-]. apply same_but_ids_refl.
  - destruct (field r "id") eqn:Hid;
      try (intros [= <- <-]; apply same_but_ids_refl).
    destruct (lowerIds rows) as [rest okr] eqn:Hrest.
    intros [= <- <-]. destruct (IH rest okr eq_refl) as [Hlen Hrows].
    split; [cbn; by rewrite Hlen|].
    intros [|i] row row' Hi Hi'; cbn in Hi, Hi'.
    + injection Hi as <-. injection Hi' as <-. split.
      * intros name Hname. unfold field. by rewrite lookup_insert_ne.
      * right. exists s. by rewrite field_insert_eq.
    + by apply (Hrows i).
Qed.

Lemma referential_rows (db : Db) (filename : string) (rows rows' : list Row)
    (r : option (list ValidationError)) :
  referential db filename rows = (rows', r) →
  (filename ≠ "channels" → rows' = rows) ∧ same_but_ids rows rows'.
Proof.
  unfold referential.
  destruct (String.eqb_spec filename "channels") as [->|Hne].
  - unfold findDuplicatesById.
    destruct (lowerIds rows) as [rows1 ok] eqn:Hlow.
    apply lowerIds_same_but_ids in Hlow.
    destruct ok; intros [= <- _]; by split.
  - assert (rows' = rows → (filename ≠ "channels" → rows' = rows)
                            ∧ same_but_ids rows rows') as Hsame
      by (intros ->; split; [done|apply same_but_ids_refl]).
    repeat case_match; intros [= <- _]; by apply Hsame.
Qed.

Lemma only_channel_ids_written_refl (st st' : State) :
  st_files st' = st_files st → only_channel_ids_written st st'.
Proof.
  intros Heq. split; [by rewrite Heq|]. rewrite Heq.
  destruct (st_files st !! "channels") as [rows|]; [|done].
  exists rows. split; [done|apply same_but_ids_refl].
Qed.

Lemma only_channel_ids_written_trans (st1 st2 st3 : State) :
  only_channel_ids_written st1 st2 → only_channel_ids_written st2 st3 →
  only_channel_ids_written st1 st3.
Proof.
  intros [Ho12 Hc12] [Ho23 Hc23]. split.
  - intros filename Hne. by rewrite Ho23, Ho12.
  - destruct (st_files st1 !! "channels") as [rows1|].
    + destruct Hc12 as (rows2 & H2 & Hs12). rewrite H2 in Hc23.
      destruct Hc23 as (rows3 & H3 & Hs23). exists rows3.
      split; [done|]. by eapply same_but_ids_trans.
    + by rewrite Hc12 in Hc23.
Qed.

Lemma validateFile_writes (filename : string) (st st' : State)
    (r : Halt + list ValidationError) :
  validateFile c filename st = (r, st') → only_channel_ids_written st st'.
Proof.
  rewrite validateFile_eq.
  destruct (st_files st !! filename) as [rows|] eqn:Hrows.
  2: { intros [= _ <-]. by apply only_channel_ids_written_refl. }
  destruct (referential (st_db st) filename rows) as [rows' fe] eqn:Href.
  apply referential_rows in Href as [Hsame Hids].
  assert (Hst : only_channel_ids_written st
            {| st_db := st_db st;
               st_files := <[filename := rows']> (st_files st);
               st_log := st_log st |}).
  { destruct (decide (filename = "channels")) as [->|Hne].
    - split; cbn [st_files].
      + intros other Hother. by rewrite lookup_insert_ne.
      + rewrite Hrows, lookup_insert_eq. by exists rows'.
    - apply only_channel_ids_written_refl. cbn [st_files].
      rewrite (Hsame Hne). by apply insert_id. }
  destruct fe; intros [= _ <-]; exact Hst.
Qed.

Lemma checkFile_writes (filepath : string)
    (globalErrors : list ValidationError) (st st' : State)
    (r : Halt + list ValidationError) :
  checkFile c filepath globalErrors st = (r, st') →
  only_channel_ids_written st st'.
Proof.
  rewrite checkFile_cases.
  destruct (schemes_has c (file_getFilename c filepath)).
  2: { intros [= _ <-]. by apply only_channel_ids_written_refl. }
  destruct (validateFile c (file_getFilename c filepath) st)
    as [res st1] eqn:Hval.
  apply validateFile_writes in Hval.
  destruct res as [h|[|err rest]]; intros [= _ <-]; exact Hval.
Qed.

Lemma forOf_checkFile_writes (fs : list string) :
  ∀ globalErrors st st' r,
    forOf (checkFile c) fs globalErrors st = (r, st') →
    only_channel_ids_written st st'.
Proof.
  induction fs as [|f fs IH]; intros g st st' r; cbn [forOf].
  - intros [= _ <-]. by apply only_channel_ids_written_refl.
  - unfold mbind, M_bind.
    destruct (checkFile c f g st) as [[h|g1] st1] eqn:Hf;
      apply checkFile_writes in Hf.
    + by intros [= _ <-].
    + intros Hrest%IH. by eapply only_channel_ids_written_trans.
Qed.

End Writes.

(** X17. Whatever the run does after the first phase (validation, a
    fatal error or an exception), it leaves the rows of every table but
    the channels as the first phase stored them; of the channels it
    leaves the number of rows and every field of every row but [id],
    and an [id] is as it was or is the string it was, in lower case. *)
Theorem run_writes_only_channel_ids (c : Core) (args : list string) :
  only_channel_ids_written (snd (phase1 c initial)) (snd (run c args)).
Proof.
  unfold run, main.
  destruct (phase1 c initial) as [[h|[]] st1] eqn:H1.
  { rewrite (bind_inl _ _ _ _ _ H1). by apply only_channel_ids_written_refl. }
  rewrite (bind_inr _ _ _ _ _ H1). cbn [snd].
  destruct (phase2 c args st1) as [[h|g] st2] eqn:H2.
  - rewrite (bind_inl _ _ _ _ _ H2). unfold phase2 in H2.
    by apply forOf_checkFile_writes in H2.
  - rewrite (bind_inr _ _ _ _ _ H2). unfold phase2 in H2.
    apply forOf_checkFile_writes in H2.
    eapply only_channel_ids_written_trans; [exact H2|].
    apply only_channel_ids_written_refl. by destruct g.
Qed.

(** X18. Of an element of [broadcast_area] only the first two pieces
    count: what follows a second slash takes no part in the check (it
    is in the message only). *)
Theorem area_extra_pieces_ignored (t code rest : string) (db : Db) :
  has_char "/" t = false →
  has_char "/" code = false →
  area_type (t +:+ "/" +:+ code +:+ "/" +:+ rest) = t
  ∧ area_code (t +:+ "/" +:+ code +:+ "/" +:+ rest) = VStr code
  ∧ wrong_area db (area_type (t +:+ "/" +:+ code +:+ "/" +:+ rest))
                  (area_code (t +:+ "/" +:+ code +:+ "/" +:+ rest))
    = wrong_area db (area_type (t +:+ "/" +:+ code))
                    (area_code (t +:+ "/" +:+ code)).
Proof.
  intros Ht Hcode.
  assert (Hlong : JS.split_char "/" (t +:+ "/" +:+ code +:+ "/" +:+ rest)
                  = t :: code :: JS.split_char "/" rest).
  { unfold JS.split_char.
    change ("/" +:+ code +:+ "/" +:+ rest)
      with (String "/" (code +:+ String "/" rest)).
    rewrite split_char_go_first by done.
    by rewrite split_char_go_first by done. }
  assert (Hshort : JS.split_char "/" (t +:+ "/" +:+ code) = [t; code]).
  { unfold JS.split_char. change ("/" +:+ code) with (String "/" code).
    rewrite split_char_go_first by done.
    by rewrite split_char_go_none by done. }
  unfold area_type, area_code. by rewrite Hlong, Hshort.
Qed.

Lemma area_extra_pieces_ignored_witness :
  area_type ("c" +:+ "/" +:+ "UK" +:+ "/" +:+ "north") = "c"
  ∧ area_code ("c" +:+ "/" +:+ "UK" +:+ "/" +:+ "north") = VStr "UK"
  ∧ wrong_area (st_db Demo.loaded)
      (area_type ("c" +:+ "/" +:+ "UK" +:+ "/" +:+ "north"))
      (area_code ("c" +:+ "/" +:+ "UK" +:+ "/" +:+ "north"))
    = wrong_area (st_db Demo.loaded)
        (area_type ("c" +:+ "/" +:+ "UK")) (area_code ("c" +:+ "/" +:+ "UK")).
Proof.
  apply (area_extra_pieces_ignored "c" "UK" "north" (st_db Demo.loaded));
    reflexivity.
Defined.

Section Clean.

Lemma concat_nil_lookup {A : Type} (l : list (list A)) :
  concat l = [] ↔ ∀ i x, l !! i = Some x → x = [].
Proof.
  rewrite concat_nil_Forall, Forall_lookup. done.
Qed.

End Clean.

(** X19. A validated file has no error exactly when the duplicate
    detector returns none (channels), every reference rule returns none
    on every row, and the schema accepts every row. *)
Theorem file_is_clean_iff (c : Core) (filename : string) (st st' : State)
    (rows rows' : list Row) (fileErrors : list ValidationError) :
  validateFile c filename st = (inr fileErrors, st') →
  st_files st !! filename = Some rows →
  st_files st' !! filename = Some rows' →
  fileErrors = []
  ↔ (filename = "channels" → snd (findDuplicatesById rows) = Some [])
    ∧ ∀ i row, rows' !! i = Some row →
        rules_of (st_db st) filename i row = Some []
        ∧ schema_messages c filename row = [].
Proof.
  rewrite validateFile_eq. intros Hval Hrows Hrows'. rewrite Hrows in Hval.
  destruct (referential (st_db st) filename rows) as [rows1 [fe|]] eqn:Href;
    [|done].
  injection Hval as <- <-. cbn [st_files] in Hrows'.
  rewrite lookup_insert_eq in Hrows'. injection Hrows' as ->.
  apply referential_spec in Href as (dups & per & Hdup & Hlen & Hper & ->).
  rewrite schemaLoop_spec, !app_nil, !concat_nil_lookup.
  assert (Hd : dups = []
               ↔ (filename = "channels"
                  → snd (findDuplicatesById rows) = Some [])).
  { destruct (String.eqb_spec filename "channels") as [->|Hne].
    - rewrite Hdup. cbn. split; [by intros ->|]. intros H.
      specialize (H eq_refl). by injection H.
    - destruct Hdup as [_ ->]. done. }
  rewrite Hd. split.
  - intros [[Hdups Hrules] Hschema]. split; [done|]. intros i row Hrow.
    destruct (Hper i row Hrow) as (es & Hes & Hr). split.
    + by rewrite Hr, (Hrules i es Hes).
    + specialize (Hschema i (schema_errors c filename i row)).
      rewrite list_lookup_imap, Hrow in Hschema.
      specialize (Hschema eq_refl). unfold schema_errors in Hschema.
      by apply map_eq_nil in Hschema.
  - intros [Hdups Hall]. split; [split; [done|]|].
    + intros i es Hes.
      assert (Hlt : i < length rows').
      { rewrite <- Hlen. by apply lookup_lt_Some in Hes. }
      destruct (lookup_lt_is_Some_2 rows' i Hlt) as [row Hrow].
      destruct (Hper i row Hrow) as (es' & Hes' & Hr).
      destruct (Hall i row Hrow) as [Hnil _]. congruence.
    + intros i es. rewrite list_lookup_imap.
      destruct (rows' !! i) as [row|] eqn:Hrow; [|done].
      intros [= <-]. destruct (Hall i row Hrow) as [_ Hnil].
      unfold schema_errors. by rewrite Hnil.
Qed.

Lemma file_is_clean_iff_witness :
  let c := Demo.core [] in
  (@nil ValidationError) = []
  ↔ ("countries" = "channels"
     → snd (findDuplicatesById Demo.countries_rows) = Some [])
    ∧ ∀ i row, Demo.countries_rows !! i = Some row →
        rules_of (st_db Demo.loaded) "countries" i row = Some []
        ∧ schema_messages c "countries" row = [].
Proof.
  apply (file_is_clean_iff (Demo.core []) "countries" Demo.loaded
           (snd (validateFile (Demo.core []) "countries" Demo.loaded)));
    vm_compute; reflexivity.
Defined.
